(** * ExpressionEvaluator: the filter-condition evaluator, embedded and verified

    The development follows the C++ sources of the library:
    - [include/enums.h], [include/key.h], [include/filter_structs.h]: the data
      model (operator enumerations, [ValueType], [Key], the expression
      structs);
    - the linear-search translation unit ([LanguageParser::parse] resolving
      keys with [std::find_if]), embedded in [Module Linear];
    - the hash-map translation unit ([LanguageParser::parse] building a
      [std::unordered_map] per call), embedded in [Module Hashed];
    - [benchmark/chatgpt.cpp]: the builders of the records and of the chain
      conditions the benchmarks evaluate.

    A [throw ParseException(msg)] is an explicit error result; every function
    that can throw returns a [Result].  The one operation of the sources
    whose behaviour C++ leaves undefined and whose compiled code does not
    return, the division of [INT64_MIN] by [-1], is the third result,
    [Crash]. *)

From Stdlib Require Import ZArith Bool List Lia.
From Stdlib Require Import Strings.String Strings.Ascii.
From Stdlib Require Import Floats.SpecFloat.
From stdpp Require Import base option list gmap strings pretty.

Local Open Scope Z_scope.

(** ** include/enums.h *)

Inductive ArithmeticOperations := ADD | SUBTRACT | MULTIPLY | DIVIDE.

Inductive ComparisonOperations :=
  EQUAL | NOT_EQUAL | GREATER_THAN | LESS_THAN | GREATER_EQUAL | LESS_EQUAL.

Inductive LogicalOperations := AND | OR | NOT | NONE.

(** ** Machine numbers

    [int64_t] is a [Z] kept in the signed 64-bit range; [+], [-] and [*]
    reduce their mathematical result back into that range (two's-complement
    wrap-around, which is what the compiled code does where the C++ standard
    leaves signed overflow undefined).  The quotient of [/] is in range but
    for [INT64_MIN / -1]; there the division instruction raises a hardware
    exception and the process is killed (see [Crash] and [arith_int64]). *)

Definition int64_min : Z := - 2 ^ 63.
Definition int64_max : Z := 2 ^ 63 - 1.

Definition in_int64 (z : Z) : Prop := int64_min <= z <= int64_max.

Definition wrap64 (z : Z) : Z := (z + 2 ^ 63) mod 2 ^ 64 - 2 ^ 63.

(** [double] is IEEE-754 binary64: 53 bits of precision, exponent bound 1024,
    round to nearest even.  [S754_nan] stands for every NaN. *)

Definition double : Type := spec_float.

Definition prec64 : Z := 53.
Definition emax64 : Z := 1024.

Definition dadd : double -> double -> double := SFadd prec64 emax64.
Definition dsub : double -> double -> double := SFsub prec64 emax64.
Definition dmul : double -> double -> double := SFmul prec64 emax64.
Definition ddiv : double -> double -> double := SFdiv prec64 emax64.

(** [static_cast<double>(z)] for an [int64_t] [z]. *)
Definition double_of_int64 (z : Z) : double :=
  binary_normalize prec64 emax64 z 0 false.

(** The [double] nearest to [m * 2^e]. *)
Definition dyadic (m e : Z) : double :=
  binary_normalize prec64 emax64 m e false.

(** The literal [0.0]. *)
Definition dzero : double := S754_zero false.

(** The six relational operators of C++ on [double]. *)
Definition deq (l r : double) : bool := SFeqb l r.
Definition dne (l r : double) : bool := negb (SFeqb l r).
Definition dgt (l r : double) : bool := SFltb r l.
Definition dlt (l r : double) : bool := SFltb l r.
Definition dge (l r : double) : bool := SFleb r l.
Definition dle (l r : double) : bool := SFleb l r.

(** The relational operators of [std::string]: lexicographic on the
    characters taken as unsigned bytes, a proper prefix being smaller. *)
Definition seq (l r : string) : bool := Strings.String.eqb l r.
Definition sne (l r : string) : bool := negb (Strings.String.eqb l r).
Definition sgt (l r : string) : bool := Strings.String.ltb r l.
Definition slt (l r : string) : bool := Strings.String.ltb l r.
Definition sge (l r : string) : bool := Strings.String.leb r l.
Definition sle (l r : string) : bool := Strings.String.leb l r.

(** ** include/key.h *)

(** [using ValueType = std::variant<int64_t, double, std::string, bool>] *)
Inductive ValueType :=
| VInt (z : Z)
| VDouble (d : double)
| VString (s : string)
| VBool (b : bool).

(** [std::variant::index()]: the position of the active alternative. *)
Definition index (v : ValueType) : nat :=
  match v with
  | VInt _ => 0%nat
  | VDouble _ => 1%nat
  | VString _ => 2%nat
  | VBool _ => 3%nat
  end.

Record Key := mkKey { getName : string; getValue : ValueType }.

(** [Key::setValue]: the name stays, the value is replaced as a whole. *)
Definition setValue (k : Key) (value : ValueType) : Key :=
  mkKey (getName k) value.

(** ** include/filter_structs.h *)

Record UnaryExpression := mkUnary {
  u_op : ComparisonOperations;
  u_key : string;
  u_value : ValueType }.

Record BinaryExpression := mkBinary {
  left_key : string;
  arith_op : ArithmeticOperations;
  right_key : string;
  comp_op : ComparisonOperations;
  b_value : ValueType }.

(** [std::variant<UnaryExpression, BinaryExpression>] *)
Inductive Expression :=
| Unary (e : UnaryExpression)
| Binary (e : BinaryExpression).

Record SubExpression := mkSub {
  expr : Expression;
  prev_logical_op : LogicalOperations }.

Record FilterCondition := mkCondition {
  sub_expressions : list SubExpression }.

(** ** include/parser.h: ParseException

    One constructor for each message a [throw] of the sources builds;
    [what] gives the message back. *)

Inductive ParseException :=
| UnknownExpressionType
| UnsupportedLogicalOperation
| DivisionByZeroException
| UnsupportedArithmeticOperation
| ArithmeticRequiresNumeric
| ComparisonRequiresSameType
| UnsupportedComparisonOperation
| UnsupportedComparisonForBoolean
| UnsupportedTypeForComparison
| KeyNotFoundException (keyName : string).

Definition what (e : ParseException) : string :=
  match e with
  | UnknownExpressionType => "Unknown expression type"
  | UnsupportedLogicalOperation => "Unsupported logical operation"
  | DivisionByZeroException => "Division by zero"
  | UnsupportedArithmeticOperation => "Unsupported arithmetic operation"
  | ArithmeticRequiresNumeric => "Arithmetic operations require numeric types"
  | ComparisonRequiresSameType => "Comparison requires operands of the same type"
  | UnsupportedComparisonOperation => "Unsupported comparison operation"
  | UnsupportedComparisonForBoolean => "Unsupported comparison operation for boolean"
  | UnsupportedTypeForComparison => "Unsupported type for comparison"
  | KeyNotFoundException keyName => "Key not found: " +:+ keyName
  end.

(** The four error kinds under which the exceptions are documented. *)
Inductive ErrorKind := TypeMismatch | KeyNotFound | DivisionByZero | UnsupportedOperation.

Definition kind (e : ParseException) : ErrorKind :=
  match e with
  | ComparisonRequiresSameType | ArithmeticRequiresNumeric => TypeMismatch
  | KeyNotFoundException _ => KeyNotFound
  | DivisionByZeroException => DivisionByZero
  | UnknownExpressionType | UnsupportedLogicalOperation
  | UnsupportedArithmeticOperation | UnsupportedComparisonOperation
  | UnsupportedComparisonForBoolean | UnsupportedTypeForComparison =>
      UnsupportedOperation
  end.

(** ** Results: a value, a thrown exception, or a crash

    [Crash] is the outcome of an operation that neither returns nor throws:
    its behaviour is undefined in C++ and the compiled code is killed by a
    signal (SIGFPE).  No [catch] sees it. *)

Inductive Result (A : Type) :=
| Ok (a : A)
| Throw (e : ParseException)
| Crash.
Arguments Ok {A} a.
Arguments Throw {A} e.
Arguments Crash {A}.

#[global] Instance Result_ret : MRet Result := fun A a => Ok a.

#[global] Instance Result_bind : MBind Result := fun A B k r =>
  match r with
  | Ok a => k a
  | Throw e => Throw e
  | Crash => Crash
  end.

Definition throws {A : Type} (r : Result A) : Prop := exists e, r = Throw e.

(** The call does not return a value: it throws, or it crashes. *)
Definition fails {A : Type} (r : Result A) : Prop := throws r \/ r = Crash.

Definition fails_with {A : Type} (r : Result A) (k : ErrorKind) : Prop :=
  exists e, r = Throw e /\ kind e = k.

(** ** evaluateArithmetic (the same text in both translation units)

    The enumerations are closed, so the [default:] arms of the two switches
    cannot be reached and have no counterpart here. *)

(** The switch of the branch taken when both operands hold [int64_t].
    [DIVIDE] guards against [r == 0] only: [return l / r] is then executed
    also for [INT64_MIN / -1], whose quotient [2^63] is not an [int64_t];
    that division is undefined behaviour and the compiled code is killed by
    SIGFPE.  Every other quotient is in range, and truncated toward zero. *)
Definition arith_int64 (l : Z) (op : ArithmeticOperations) (r : Z)
  : Result ValueType :=
  match op with
  | ADD => Ok (VInt (wrap64 (l + r)))
  | SUBTRACT => Ok (VInt (wrap64 (l - r)))
  | MULTIPLY => Ok (VInt (wrap64 (l * r)))
  | DIVIDE =>
      if r =? 0 then Throw DivisionByZeroException
      else if (l =? int64_min) && (r =? -1) then Crash
      else Ok (VInt (wrap64 (Z.quot l r)))
  end.

(** The switch of the branch taken when both operands are numeric and at
    least one holds [double]. *)
Definition arith_double (l : double) (op : ArithmeticOperations) (r : double)
  : Result ValueType :=
  match op with
  | ADD => Ok (VDouble (dadd l r))
  | SUBTRACT => Ok (VDouble (dsub l r))
  | MULTIPLY => Ok (VDouble (dmul l r))
  | DIVIDE =>
      if deq r dzero then Throw DivisionByZeroException
      else Ok (VDouble (ddiv l r))
  end.

Definition evaluateArithmetic
    (left : ValueType) (op : ArithmeticOperations) (right : ValueType)
  : Result ValueType :=
  match left, right with
  | VInt l, VInt r => arith_int64 l op r
  | VInt l, VDouble r => arith_double (double_of_int64 l) op r
  | VDouble l, VInt r => arith_double l op (double_of_int64 r)
  | VDouble l, VDouble r => arith_double l op r
  | _, _ => Throw ArithmeticRequiresNumeric
  end.

(** ** The linear-search translation unit *)

Module Linear.

(** [evaluateComparison]: one switch per alternative; the one for [bool] has
    only the two equality cases and a throwing [default:]. *)
Definition evaluateComparison
    (left : ValueType) (op : ComparisonOperations) (right : ValueType)
  : Result bool :=
  if negb (Nat.eqb (index left) (index right)) then
    Throw ComparisonRequiresSameType
  else
    match left, right with
    | VInt l, VInt r =>
        match op with
        | EQUAL => Ok (l =? r)
        | NOT_EQUAL => Ok (negb (l =? r))
        | GREATER_THAN => Ok (l >? r)
        | LESS_THAN => Ok (l <? r)
        | GREATER_EQUAL => Ok (l >=? r)
        | LESS_EQUAL => Ok (l <=? r)
        end
    | VDouble l, VDouble r =>
        match op with
        | EQUAL => Ok (deq l r)
        | NOT_EQUAL => Ok (dne l r)
        | GREATER_THAN => Ok (dgt l r)
        | LESS_THAN => Ok (dlt l r)
        | GREATER_EQUAL => Ok (dge l r)
        | LESS_EQUAL => Ok (dle l r)
        end
    | VString l, VString r =>
        match op with
        | EQUAL => Ok (seq l r)
        | NOT_EQUAL => Ok (sne l r)
        | GREATER_THAN => Ok (sgt l r)
        | LESS_THAN => Ok (slt l r)
        | GREATER_EQUAL => Ok (sge l r)
        | LESS_EQUAL => Ok (sle l r)
        end
    | VBool l, VBool r =>
        match op with
        | EQUAL => Ok (Bool.eqb l r)
        | NOT_EQUAL => Ok (negb (Bool.eqb l r))
        | _ => Throw UnsupportedComparisonForBoolean
        end
    | _, _ => Throw ComparisonRequiresSameType
    end.

(** [getValueFromKey]: [std::find_if] returns the first [Key] whose name is
    [keyName]. *)
Fixpoint getValueFromKey (keys : list Key) (keyName : string)
  : Result ValueType :=
  match keys with
  | [] => Throw (KeyNotFoundException keyName)
  | k :: rest =>
      if Strings.String.eqb (getName k) keyName then Ok (getValue k)
      else getValueFromKey rest keyName
  end.

(** The two arms of the [if / else if] on the alternative held by
    [subExpr.expr]; the final [else] cannot be reached. *)
Definition evaluateExpression (keys : list Key) (e : Expression)
  : Result bool :=
  match e with
  | Unary expr =>
      keyValue ← getValueFromKey keys (u_key expr);
      evaluateComparison keyValue (u_op expr) (u_value expr)
  | Binary expr =>
      leftValue ← getValueFromKey keys (left_key expr);
      rightValue ← getValueFromKey keys (right_key expr);
      arithResult ← evaluateArithmetic leftValue (arith_op expr) rightValue;
      evaluateComparison arithResult (comp_op expr) (b_value expr)
  end.

(** The switch on [subExpr.prev_logical_op]. *)
Definition combine (result : bool) (op : LogicalOperations) (subResult : bool)
  : Result bool :=
  match op with
  | AND => Ok (result && subResult)
  | OR => Ok (result || subResult)
  | NONE => Ok subResult
  | NOT => Throw UnsupportedLogicalOperation
  end.

(** The [for] loop of the lambda, started from the current [result]. *)
Fixpoint loop (keys : list Key) (subs : list SubExpression) (result : bool)
  : Result bool :=
  match subs with
  | [] => Ok result
  | subExpr :: rest =>
      subResult ← evaluateExpression keys (expr subExpr);
      result' ← combine result (prev_logical_op subExpr) subResult;
      loop keys rest result'
  end.

(** [parse(condition)] is the lambda; applying it to [keys] runs the loop
    from [result = true]. *)
Definition parse (condition : FilterCondition) (keys : list Key)
  : Result bool :=
  loop keys (sub_expressions condition) true.

End Linear.

(** ** The hash-map translation unit *)

Module Hashed.

(** The generic lambda [compare] is instantiated once per alternative; an
    instance of [Relational] gives the operators [==], [!=], [>], [<], [>=],
    [<=] of the instantiating type, and [is_bool] is the value of
    [std::is_same_v<T, bool>] that [if constexpr] tests. *)
Class Relational (T : Type) := {
  is_bool : bool;
  op_eq : T -> T -> bool;
  op_ne : T -> T -> bool;
  op_gt : T -> T -> bool;
  op_lt : T -> T -> bool;
  op_ge : T -> T -> bool;
  op_le : T -> T -> bool }.

#[global] Instance Relational_int64 : Relational Z := {|
  is_bool := false;
  op_eq := Z.eqb; op_ne := fun l r => negb (Z.eqb l r);
  op_gt := Z.gtb; op_lt := Z.ltb; op_ge := Z.geb; op_le := Z.leb |}.

#[global] Instance Relational_double : Relational double := {|
  is_bool := false;
  op_eq := deq; op_ne := dne;
  op_gt := dgt; op_lt := dlt; op_ge := dge; op_le := dle |}.

#[global] Instance Relational_string : Relational string := {|
  is_bool := false;
  op_eq := seq; op_ne := sne;
  op_gt := sgt; op_lt := slt; op_ge := sge; op_le := sle |}.

#[global] Instance Relational_bool : Relational bool := {|
  is_bool := true;
  op_eq := Bool.eqb; op_ne := fun l r => negb (Bool.eqb l r);
  op_gt := fun l r => l && negb r; op_lt := fun l r => negb l && r;
  op_ge := fun l r => l || negb r; op_le := fun l r => negb l || r |}.

Definition compare {T : Type} `{Relational T}
    (op : ComparisonOperations) (l r : T) : Result bool :=
  match op with
  | EQUAL => Ok (op_eq l r)
  | NOT_EQUAL => Ok (op_ne l r)
  | GREATER_THAN =>
      if is_bool then Throw UnsupportedComparisonForBoolean else Ok (op_gt l r)
  | LESS_THAN =>
      if is_bool then Throw UnsupportedComparisonForBoolean else Ok (op_lt l r)
  | GREATER_EQUAL =>
      if is_bool then Throw UnsupportedComparisonForBoolean else Ok (op_ge l r)
  | LESS_EQUAL =>
      if is_bool then Throw UnsupportedComparisonForBoolean else Ok (op_le l r)
  end.

(** [evaluateComparison]: the guard on [index()], then the dispatch on the
    alternative held by [left].  After the guard [right] holds the same
    alternative, so the last arm of the match is never taken. *)
Definition evaluateComparison
    (left : ValueType) (op : ComparisonOperations) (right : ValueType)
  : Result bool :=
  if negb (Nat.eqb (index left) (index right)) then
    Throw ComparisonRequiresSameType
  else
    match left, right with
    | VInt l, VInt r => compare op l r
    | VDouble l, VDouble r => compare op l r
    | VString l, VString r => compare op l r
    | VBool l, VBool r => compare op l r
    | _, _ => Throw ComparisonRequiresSameType
    end.

(** The loop that fills [keyMap]: [keyMap[key.getName()] = &key.getValue()]
    inserts, or overwrites the entry already stored under that name.  The map
    stores pointers into [keys], which the lambda only reads; a pointer is
    represented by the value it points to. *)
Definition buildKeyMap (keys : list Key) : gmap string ValueType :=
  foldl (fun keyMap key => <[getName key := getValue key]> keyMap) ∅ keys.

(** [getValueFromKeyMap] *)
Definition getValueFromKeyMap
    (keyMap : gmap string ValueType) (keyName : string) : Result ValueType :=
  match keyMap !! keyName with
  | Some v => Ok v
  | None => Throw (KeyNotFoundException keyName)
  end.

Definition evaluateExpression (keyMap : gmap string ValueType) (e : Expression)
  : Result bool :=
  match e with
  | Unary expr =>
      keyValue ← getValueFromKeyMap keyMap (u_key expr);
      evaluateComparison keyValue (u_op expr) (u_value expr)
  | Binary expr =>
      leftValue ← getValueFromKeyMap keyMap (left_key expr);
      rightValue ← getValueFromKeyMap keyMap (right_key expr);
      arithResult ← evaluateArithmetic leftValue (arith_op expr) rightValue;
      evaluateComparison arithResult (comp_op expr) (b_value expr)
  end.

Definition combine (result : bool) (op : LogicalOperations) (subResult : bool)
  : Result bool :=
  match op with
  | AND => Ok (result && subResult)
  | OR => Ok (result || subResult)
  | NONE => Ok subResult
  | NOT => Throw UnsupportedLogicalOperation
  end.

Fixpoint loop (keyMap : gmap string ValueType) (subs : list SubExpression)
    (result : bool) : Result bool :=
  match subs with
  | [] => Ok result
  | subExpr :: rest =>
      subResult ← evaluateExpression keyMap (expr subExpr);
      result' ← combine result (prev_logical_op subExpr) subResult;
      loop keyMap rest result'
  end.

Definition parse (condition : FilterCondition) (keys : list Key)
  : Result bool :=
  let keyMap := buildKeyMap keys in
  loop keyMap (sub_expressions condition) true.

End Hashed.

(** ** include/evaluator.h *)

(** [Evaluator::initialize] stores [LanguageParser::parse(condition)] and
    [Evaluator::evaluate] applies it; the library is linked against the
    hash-map translation unit. *)
Definition Predicate : Type := list Key -> Result bool.

Definition initialize (condition : FilterCondition) : Predicate :=
  Hashed.parse condition.

Definition evaluate (evaluator_ : Predicate) (keys : list Key) : Result bool :=
  evaluator_ keys.

(** ** Vocabulary of the statements *)

(** The names carried by the keys of a record, in record order. *)
Definition names (keys : list Key) : list string := getName <$> keys.

(** A value is numeric when it holds [int64_t] or [double]. *)
Definition is_numeric (v : ValueType) : bool :=
  match v with
  | VInt _ | VDouble _ => true
  | VString _ | VBool _ => false
  end.

Definition holds_double (v : ValueType) : bool :=
  match v with
  | VDouble _ => true
  | _ => false
  end.

(** The operand as the floating-point branch reads it: a [double] as it is,
    an [int64_t] converted. *)
Definition promote (v : ValueType) : double :=
  match v with
  | VInt z => double_of_int64 z
  | VDouble d => d
  | VString _ | VBool _ => S754_nan
  end.

(** The operators in the two numeric domains. *)
Definition int64_op (op : ArithmeticOperations) (l r : Z) : Z :=
  match op with
  | ADD => wrap64 (l + r)
  | SUBTRACT => wrap64 (l - r)
  | MULTIPLY => wrap64 (l * r)
  | DIVIDE => wrap64 (Z.quot l r)
  end.

Definition double_op (op : ArithmeticOperations) (l r : double) : double :=
  match op with
  | ADD => dadd l r
  | SUBTRACT => dsub l r
  | MULTIPLY => dmul l r
  | DIVIDE => ddiv l r
  end.

Definition is_divide (op : ArithmeticOperations) : bool :=
  match op with
  | DIVIDE => true
  | _ => false
  end.

(** A [double] is infinite. *)
Definition is_infinity (d : double) : bool :=
  match d with
  | S754_infinity _ => true
  | _ => false
  end.

(** The four ordering operators. *)
Definition is_ordering (op : ComparisonOperations) : bool :=
  match op with
  | EQUAL | NOT_EQUAL => false
  | GREATER_THAN | LESS_THAN | GREATER_EQUAL | LESS_EQUAL => true
  end.

(** A condition made of one sub-expression. *)
Definition single (e : Expression) (op : LogicalOperations) : FilterCondition :=
  mkCondition [mkSub e op].

(** ** evaluateLogical (the same text in both translation units)

    No caller is left for it: the loop of [parse] has its own switch, which
    also takes [NONE]. *)
Definition evaluateLogical (left : bool) (op : LogicalOperations) (right : bool)
  : Result bool :=
  match op with
  | AND => Ok (left && right)
  | OR => Ok (left || right)
  | _ => Throw UnsupportedLogicalOperation
  end.

(** ** Vocabulary of the further statements *)

(** The operator that gives the same answer on the operands swapped. *)
Definition mirror (op : ComparisonOperations) : ComparisonOperations :=
  match op with
  | EQUAL => EQUAL
  | NOT_EQUAL => NOT_EQUAL
  | GREATER_THAN => LESS_THAN
  | LESS_THAN => GREATER_THAN
  | GREATER_EQUAL => LESS_EQUAL
  | LESS_EQUAL => GREATER_EQUAL
  end.

(** The operator that is the complement on a total order. *)
Definition negate (op : ComparisonOperations) : ComparisonOperations :=
  match op with
  | EQUAL => NOT_EQUAL
  | NOT_EQUAL => EQUAL
  | GREATER_THAN => LESS_EQUAL
  | LESS_THAN => GREATER_EQUAL
  | GREATER_EQUAL => LESS_THAN
  | LESS_EQUAL => GREATER_THAN
  end.

(** The mathematical result of an operator on two integers: the quotient is
    truncated toward zero. *)
Definition exact_op (op : ArithmeticOperations) (l r : Z) : Z :=
  match op with
  | ADD => l + r
  | SUBTRACT => l - r
  | MULTIPLY => l * r
  | DIVIDE => Z.quot l r
  end.

(** The value holds a [double] that is a NaN. *)
Definition is_nan (v : ValueType) : bool :=
  match v with
  | VDouble S754_nan => true
  | _ => false
  end.

Definition holds_bool (v : ValueType) : bool :=
  match v with
  | VBool _ => true
  | _ => false
  end.

(** The key names an expression, and a condition, make the call resolve. *)
Definition referenced_by (e : Expression) : list string :=
  match e with
  | Unary expr => [u_key expr]
  | Binary expr => [left_key expr; right_key expr]
  end.

Definition referenced (condition : FilterCondition) : list string :=
  sub_expressions condition ≫= (fun subExpr => referenced_by (expr subExpr)).

(** The literal an expression compares with. *)
Definition literal_of (e : Expression) : ValueType :=
  match e with
  | Unary expr => u_value expr
  | Binary expr => b_value expr
  end.

(** The logical tags of a condition, in sequence order. *)
Definition tags (subs : list SubExpression) : list LogicalOperations :=
  prev_logical_op <$> subs.

(** After [k] right shifts a mantissa of [d > k] binary digits is still
    positive, with [d - k] digits. *)
Definition shifted (d k : nat) (mrs : shr_record) : Prop :=
  (k < d)%nat ->
  exists p, shr_m mrs = Zpos p /\ Pos.to_nat (digits2_pos p) = (d - k)%nat.

(** The right operand is a zero: the integer [0], or [0.0] of either sign. *)
Definition is_zero (v : ValueType) : bool :=
  match v with
  | VInt z => z =? 0
  | VDouble d => deq d dzero
  | VString _ | VBool _ => false
  end.

(** The operands are the two integers whose quotient is out of range. *)
Definition divide_overflows (left right : ValueType) : bool :=
  match left, right with
  | VInt l, VInt r => (l =? int64_min) && (r =? -1)
  | _, _ => false
  end.

(** The sub-expressions [subs] evaluate, one by one, to the booleans [bs]. *)
Definition evaluate_to (keyMap : gmap string ValueType)
    (subs : list SubExpression) (bs : list bool) : Prop :=
  Forall2 (fun subExpr b =>
             Hashed.evaluateExpression keyMap (expr subExpr) = Ok b) subs bs.

(** ** benchmark/chatgpt.cpp: the builders of records and conditions

    [std::size_t] counters are [nat]; [std::to_string] of such a counter is
    its decimal numeral, [pretty]. *)

(** [MakeSequentialIntKeys(n)] *)
Definition MakeSequentialIntKeys (n : nat) : list Key :=
  (fun i : nat => mkKey ("k" +:+ pretty i) (VInt (wrap64 (Z.of_nat i))))
    <$> List.seq 0%nat n.

(** [MakeMixedKeys(n)]: the switch on [i % 4]. *)
Definition MakeMixedKeys (n : nat) : list Key :=
  (fun i : nat =>
     match (i mod 4)%nat with
     | 0%nat => mkKey ("k" +:+ pretty i) (VInt (wrap64 (Z.of_nat i)))
     | 1%nat =>
         mkKey ("k" +:+ pretty i)
           (VDouble (dadd (dyadic (Z.of_nat i) 0) (dyadic 1 (-1))))
     | 2%nat => mkKey ("k" +:+ pretty i) (VString ("str" +:+ pretty i))
     | _ => mkKey ("k" +:+ pretty i) (VBool (Nat.eqb (i mod 2) 0))
     end)
    <$> List.seq 0%nat n.

(** The loop shared by [BM_BinaryArithAndChain] and [BM_StringCompareChain]:
    [chain_len] copies of one expression, each tagged [AND] but the last,
    which is tagged [NONE]. *)
Definition chain (e : Expression) (chain_len : nat) : FilterCondition :=
  mkCondition
    ((fun i : nat =>
        mkSub e (if Nat.eqb i (chain_len - 1) then NONE else AND))
       <$> List.seq 0%nat chain_len).

(** The expressions of the two benchmarks. *)
Definition BM_BinaryArithAndChain_expr : Expression :=
  Binary (mkBinary "k0" ADD "k1" LESS_THAN (VInt 100)).

Definition BM_StringCompareChain_expr : Expression :=
  Unary (mkUnary LESS_THAN "name" (VString "m")).

(** ** Sample values *)

Definition d2_5 : double := dyadic 5 (-1).
Definition d5 : double := double_of_int64 5.

Example scenario_A :
  Hashed.parse
    (mkCondition [mkSub (Unary (mkUnary GREATER_THAN "a" (VInt 10))) NONE;
                  mkSub (Unary (mkUnary LESS_THAN "b" (VInt 20))) AND])
    [mkKey "a" (VInt 15); mkKey "b" (VInt 15)] = Ok true.
Proof. vm_compute. reflexivity. Qed.

Example scenario_B :
  Hashed.parse
    (mkCondition [mkSub (Binary (mkBinary "x" ADD "y" GREATER_EQUAL (VDouble d5))) NONE])
    [mkKey "x" (VDouble d2_5); mkKey "y" (VInt 3)] = Ok true.
Proof. vm_compute. reflexivity. Qed.

Example scenario_D :
  Hashed.parse
    (mkCondition [mkSub (Binary (mkBinary "x" DIVIDE "y" EQUAL (VInt 0))) NONE])
    [mkKey "x" (VInt 10); mkKey "y" (VInt 0)] = Throw DivisionByZeroException.
Proof. vm_compute. reflexivity. Qed.

(** ** Results and kinds *)

Lemma fails_with_Throw {A : Type} (e : ParseException) :
  @fails_with A (Throw e) (kind e).
Proof. exists e. split; reflexivity. Qed.

Lemma throws_Throw {A : Type} (e : ParseException) : @throws A (Throw e).
Proof. exists e. reflexivity. Qed.

Lemma Ok_not_throws {A : Type} (a : A) : ~ throws (Ok a).
Proof. intros [e He]. discriminate He. Qed.

(** ** The key resolvers *)

Section Resolver.

Implicit Types (keys pre post : list Key) (keyMap : gmap string ValueType).

(** Filling the map from [keyMap] on: keys that do not carry [name] leave
    the entry of [name] as it was. *)
Lemma fill_lookup_other keys keyMap (name : string) :
  name ∉ names keys ->
  foldl (fun m key => <[getName key := getValue key]> m) keyMap keys !! name
  = keyMap !! name.
Proof.
  revert keyMap. induction keys as [|k keys IH]; intros keyMap Hn; simpl.
  - reflexivity.
  - unfold names in Hn. rewrite fmap_cons in Hn.
    apply not_elem_of_cons in Hn as [Hk Hrest].
    rewrite IH by exact Hrest.
    rewrite lookup_insert_ne; [reflexivity | congruence].
Qed.

Lemma fill_app pre post keyMap :
  foldl (fun m key => <[getName key := getValue key]> m) keyMap (pre ++ post)
  = foldl (fun m key => <[getName key := getValue key]> m)
      (foldl (fun m key => <[getName key := getValue key]> m) keyMap pre) post.
Proof.
  revert keyMap. induction pre as [|k pre IH]; intros keyMap; simpl.
  - reflexivity.
  - apply IH.
Qed.

(** The entry of a name is the value of the last key that carries it. *)
Lemma buildKeyMap_last pre (k : Key) post :
  getName k ∉ names post ->
  Hashed.buildKeyMap (pre ++ k :: post) !! getName k = Some (getValue k).
Proof.
  intros Hpost. unfold Hashed.buildKeyMap.
  rewrite fill_app. simpl.
  rewrite fill_lookup_other by exact Hpost.
  apply lookup_insert_eq.
Qed.

Lemma buildKeyMap_absent keys (name : string) :
  name ∉ names keys -> Hashed.buildKeyMap keys !! name = None.
Proof.
  intros Hn. unfold Hashed.buildKeyMap.
  rewrite fill_lookup_other by exact Hn. apply lookup_empty.
Qed.

(** The linear search skips the keys that do not carry [name]. *)
Lemma getValueFromKey_skip pre post (name : string) :
  name ∉ names pre ->
  Linear.getValueFromKey (pre ++ post) name = Linear.getValueFromKey post name.
Proof.
  induction pre as [|k pre IH]; intros Hn; simpl.
  - reflexivity.
  - unfold names in Hn. rewrite fmap_cons in Hn.
    apply not_elem_of_cons in Hn as [Hk Hrest].
    destruct (Strings.String.eqb_spec (getName k) name) as [Heq | Hne].
    + congruence.
    + apply IH. exact Hrest.
Qed.

Lemma getValueFromKey_absent keys (name : string) :
  name ∉ names keys ->
  Linear.getValueFromKey keys name = Throw (KeyNotFoundException name).
Proof.
  intros Hn. rewrite <- (app_nil_r keys).
  rewrite getValueFromKey_skip by exact Hn. reflexivity.
Qed.

(** It stops at the first key that carries [name]. *)
Lemma getValueFromKey_first pre (k : Key) post :
  getName k ∉ names pre ->
  Linear.getValueFromKey (pre ++ k :: post) (getName k) = Ok (getValue k).
Proof.
  intros Hn. rewrite getValueFromKey_skip by exact Hn. simpl.
  rewrite Strings.String.eqb_refl. reflexivity.
Qed.

(** With pairwise distinct names the two resolvers agree. *)
Lemma resolvers_agree keys (name : string) :
  NoDup (names keys) ->
  Linear.getValueFromKey keys name
  = Hashed.getValueFromKeyMap (Hashed.buildKeyMap keys) name.
Proof.
  intros Hnd. unfold Hashed.getValueFromKeyMap.
  destruct (decide (name ∈ names keys)) as [Hin | Hout].
  - unfold names in Hin. apply list_elem_of_fmap in Hin as (k & -> & Hk).
    apply list_elem_of_split in Hk as (pre & post & ->).
    unfold names in Hnd. rewrite fmap_app, fmap_cons in Hnd.
    apply NoDup_app in Hnd as (_ & Hdisj & Hnd).
    apply NoDup_cons in Hnd as (Hpost & _).
    assert (Hpre : getName k ∉ names pre).
    { intros Hin. apply (Hdisj _ Hin). left. }
    rewrite getValueFromKey_first by exact Hpre.
    rewrite buildKeyMap_last by exact Hpost. reflexivity.
  - rewrite getValueFromKey_absent by exact Hout.
    rewrite buildKeyMap_absent by exact Hout. reflexivity.
Qed.

End Resolver.

(** ** The two translation units compared *)

Lemma evaluateComparison_agree (left : ValueType) (op : ComparisonOperations)
    (right : ValueType) :
  Linear.evaluateComparison left op right
  = Hashed.evaluateComparison left op right.
Proof. destruct left, right, op; reflexivity. Qed.

Lemma combine_agree (result : bool) (op : LogicalOperations) (subResult : bool) :
  Linear.combine result op subResult = Hashed.combine result op subResult.
Proof. reflexivity. Qed.

Lemma evaluateExpression_agree (keys : list Key) (e : Expression) :
  NoDup (names keys) ->
  Linear.evaluateExpression keys e
  = Hashed.evaluateExpression (Hashed.buildKeyMap keys) e.
Proof.
  intros Hnd. destruct e as [u | b]; simpl.
  - rewrite (resolvers_agree keys _ Hnd).
    destruct (Hashed.getValueFromKeyMap _ _); simpl;
      [apply evaluateComparison_agree | reflexivity..].
  - rewrite !(resolvers_agree keys _ Hnd).
    destruct (Hashed.getValueFromKeyMap _ (left_key b)); simpl; [|reflexivity..].
    destruct (Hashed.getValueFromKeyMap _ (right_key b)); simpl; [|reflexivity..].
    destruct (evaluateArithmetic _ _ _); simpl;
      [apply evaluateComparison_agree | reflexivity..].
Qed.

Lemma loop_agree (keys : list Key) (subs : list SubExpression) (result : bool) :
  NoDup (names keys) ->
  Linear.loop keys subs result
  = Hashed.loop (Hashed.buildKeyMap keys) subs result.
Proof.
  intros Hnd. revert result.
  induction subs as [|subExpr rest IH]; intros result; simpl.
  - reflexivity.
  - rewrite (evaluateExpression_agree keys _ Hnd).
    destruct (Hashed.evaluateExpression _ _) as [subResult| |]; simpl; [|reflexivity..].
    rewrite combine_agree.
    destruct (Hashed.combine _ _ _) as [result'| |]; simpl; [apply IH | reflexivity..].
Qed.

(** ** The loop of the hash-map unit *)

Section Loop.

Variable keyMap : gmap string ValueType.

Lemma loop_app (pre post : list SubExpression) (result : bool) :
  Hashed.loop keyMap (pre ++ post) result
  = (acc ← Hashed.loop keyMap pre result; Hashed.loop keyMap post acc).
Proof.
  revert result. induction pre as [|subExpr pre IH]; intros result; simpl.
  - reflexivity.
  - destruct (Hashed.evaluateExpression _ _) as [subResult| |]; simpl; [|reflexivity..].
    destruct (Hashed.combine _ _ _) as [result'| |]; simpl; [apply IH | reflexivity..].
Qed.

(** The loop started at a sub-expression whose evaluation throws, throws
    the same exception, whatever [result] holds. *)
Lemma loop_throw_head (subExpr : SubExpression) (rest : list SubExpression)
    (result : bool) (e : ParseException) :
  Hashed.evaluateExpression keyMap (expr subExpr) = Throw e ->
  Hashed.loop keyMap (subExpr :: rest) result = Throw e.
Proof. intros He. simpl. rewrite He. reflexivity. Qed.

(** A sub-expression whose evaluation throws makes every run of the loop
    over a sequence that holds it fail: the run throws, unless a division
    before that sub-expression has crashed. *)
Lemma loop_fails (subs : list SubExpression) (subExpr : SubExpression)
    (result : bool) (e : ParseException) :
  subExpr ∈ subs ->
  Hashed.evaluateExpression keyMap (expr subExpr) = Throw e ->
  fails (Hashed.loop keyMap subs result).
Proof.
  intros Hin He. apply list_elem_of_split in Hin as (pre & post & ->).
  rewrite loop_app.
  destruct (Hashed.loop keyMap pre result) as [acc | e'|]; simpl.
  - rewrite He. simpl. left. apply throws_Throw.
  - left. apply throws_Throw.
  - right. reflexivity.
Qed.

(** The loop crashes only where a sub-expression does. *)
Lemma loop_no_crash (subs : list SubExpression) (result : bool) :
  (forall subExpr, subExpr ∈ subs ->
     Hashed.evaluateExpression keyMap (expr subExpr) <> Crash) ->
  Hashed.loop keyMap subs result <> Crash.
Proof.
  revert result. induction subs as [|subExpr rest IH]; intros result Hall.
  - discriminate.
  - simpl.
    destruct (Hashed.evaluateExpression keyMap (expr subExpr))
      as [subResult| |] eqn:Hsub; simpl.
    + destruct (prev_logical_op subExpr); simpl;
        try (apply IH; intros s Hs; apply Hall; right; exact Hs).
      discriminate.
    + discriminate.
    + exfalso. apply (Hall subExpr); [left | exact Hsub].
Qed.

(** The loop returns when every sub-expression evaluates to a boolean and
    none is tagged [NOT]. *)
Lemma loop_returns (subs : list SubExpression) (result : bool) :
  (forall subExpr, subExpr ∈ subs ->
     (exists b, Hashed.evaluateExpression keyMap (expr subExpr) = Ok b)
     /\ prev_logical_op subExpr <> NOT) ->
  exists acc, Hashed.loop keyMap subs result = Ok acc.
Proof.
  revert result. induction subs as [|subExpr rest IH]; intros result Hall.
  - exists result. reflexivity.
  - destruct (Hall subExpr ltac:(left)) as [[b Hb] Htag].
    simpl. rewrite Hb. simpl.
    destruct (prev_logical_op subExpr); try contradiction; simpl;
      apply IH; intros s Hs; apply Hall; right; exact Hs.
Qed.

(** A sub-expression tagged [NONE] makes the loop forget [result]. *)
Lemma loop_NONE_head (subExpr : SubExpression) (rest : list SubExpression)
    (result : bool) :
  prev_logical_op subExpr = NONE ->
  Hashed.loop keyMap (subExpr :: rest) result
  = (subResult ← Hashed.evaluateExpression keyMap (expr subExpr);
     Hashed.loop keyMap rest subResult).
Proof.
  intros Hop. simpl. rewrite Hop.
  destruct (Hashed.evaluateExpression _ _); reflexivity.
Qed.

End Loop.

Lemma bind_Ok_r {A : Type} (r : Result A) : (a ← r; Ok a) = r.
Proof. destruct r; reflexivity. Qed.

Lemma wrap64_in_int64 (z : Z) : in_int64 (wrap64 z).
Proof.
  unfold in_int64, wrap64, int64_min, int64_max.
  assert (H := Z.mod_pos_bound (z + 2 ^ 63) (2 ^ 64) eq_refl). lia.
Qed.

Lemma deq_zero_iff (d : double) : deq d dzero = true <-> exists s, d = S754_zero s.
Proof.
  split.
  - destruct d as [s | s | | s m e]; simpl; try discriminate.
    + intros _. exists s. reflexivity.
    + destruct s; discriminate.
    + destruct s; discriminate.
  - intros [s ->]. reflexivity.
Qed.

(** ** The loop of the linear unit

    The same three facts hold of the older loop, on every record. *)

Section LinearLoop.

Variable keys : list Key.

Lemma linear_loop_app (pre post : list SubExpression) (result : bool) :
  Linear.loop keys (pre ++ post) result
  = (acc ← Linear.loop keys pre result; Linear.loop keys post acc).
Proof.
  revert result. induction pre as [|subExpr pre IH]; intros result; simpl.
  - reflexivity.
  - destruct (Linear.evaluateExpression _ _) as [subResult| |]; simpl; [|reflexivity..].
    destruct (Linear.combine _ _ _) as [result'| |]; simpl; [apply IH | reflexivity..].
Qed.

Lemma linear_no_short_circuit (pre post : list SubExpression)
    (subExpr : SubExpression) (e : ParseException) :
  Linear.evaluateExpression keys (expr subExpr) = Throw e ->
  fails (Linear.parse (mkCondition (pre ++ subExpr :: post)) keys)
  /\ forall acc, Linear.loop keys pre true = Ok acc ->
       Linear.parse (mkCondition (pre ++ subExpr :: post)) keys = Throw e.
Proof.
  intros He. unfold Linear.parse. cbn [sub_expressions].
  rewrite linear_loop_app. split.
  - destruct (Linear.loop keys pre true) as [acc | e'|]; simpl.
    + rewrite He. left. apply throws_Throw.
    + left. apply throws_Throw.
    + right. reflexivity.
  - intros acc Hpre. rewrite Hpre. simpl. rewrite He. reflexivity.
Qed.

Lemma linear_none_discards (pre post : list SubExpression)
    (subExpr : SubExpression) (acc : bool) :
  prev_logical_op subExpr = NONE ->
  Linear.loop keys pre true = Ok acc ->
  Linear.parse (mkCondition (pre ++ subExpr :: post)) keys
  = Linear.parse (mkCondition (subExpr :: post)) keys.
Proof.
  intros Hop Hpre. unfold Linear.parse. cbn [sub_expressions].
  rewrite linear_loop_app, Hpre. simpl. rewrite Hop.
  destruct (Linear.evaluateExpression _ _); reflexivity.
Qed.

Lemma linear_empty_condition_true :
  Linear.parse (mkCondition []) keys = Ok true.
Proof. reflexivity. Qed.

End LinearLoop.

(** Every name of the record has a last key that carries it, so the
    hash-map resolver finds every name some key carries. *)
Lemma last_key_exists (keys : list Key) (name : string) :
  name ∈ names keys ->
  exists pre k post,
    keys = pre ++ k :: post /\ getName k = name /\ name ∉ names post.
Proof.
  induction keys as [|k keys IH]; intros Hin.
  - unfold names in Hin. simpl in Hin. inversion Hin.
  - destruct (decide (name ∈ names keys)) as [Hrest | Hrest].
    + destruct (IH Hrest) as (pre & k' & post & -> & Hk' & Hpost).
      exists (k :: pre), k', post. split; [reflexivity | split; assumption].
    + exists [], k, keys. split; [reflexivity|]. split; [|exact Hrest].
      unfold names in Hin, Hrest. rewrite fmap_cons in Hin.
      apply elem_of_cons in Hin as [Heq | Hin]; [congruence | contradiction].
Qed.

(** With a name carried twice the two resolvers part: the linear search
    stops at the first key, the map holds the last. *)
Example duplicate_names_differ :
  Linear.getValueFromKey [mkKey "a" (VInt 1); mkKey "a" (VInt 2)] "a"
  = Ok (VInt 1)
  /\ Hashed.getValueFromKeyMap
       (Hashed.buildKeyMap [mkKey "a" (VInt 1); mkKey "a" (VInt 2)]) "a"
     = Ok (VInt 2).
Proof. split; reflexivity. Qed.

(** Away from a zero divisor the floating-point branch follows IEEE-754,
    overflow to infinity included. *)
Example overflow_gives_infinity :
  evaluateArithmetic (VDouble (SFmax_float prec64 emax64)) MULTIPLY (VInt 2)
  = Ok (VDouble (S754_infinity false)).
Proof. vm_compute. reflexivity. Qed.

(** A crash is not an exception: when the division of an earlier
    sub-expression crashes, the call neither returns nor throws, also when a
    later sub-expression would throw. *)
Example crash_precedes_throw :
  evaluate
    (initialize
       (mkCondition
          [mkSub (Binary (mkBinary "x" DIVIDE "y" EQUAL (VInt 0))) NONE;
           mkSub (Unary (mkUnary EQUAL "missing" (VInt 1))) AND]))
    [mkKey "x" (VInt int64_min); mkKey "y" (VInt (-1))]
  = Crash.
Proof. vm_compute. reflexivity. Qed.

(** ** The claims *)

(** C9. A condition with no sub-expression evaluates to [true] on every
    record, whatever the record holds: the loop is not entered and nothing is
    resolved. *)
Theorem empty_condition_true (keys : list Key) :
  evaluate (initialize (mkCondition [])) keys = Ok true.
Proof. reflexivity. Qed.

(** C7. Comparing two values that hold different alternatives (an [int64_t]
    against a [double] included) throws "Comparison requires operands of the
    same type", a TypeMismatch, under each of the six operators and in both
    translation units; no operand is converted. *)
Theorem comparison_type_mismatch (left right : ValueType)
    (op : ComparisonOperations) :
  index left <> index right ->
  Hashed.evaluateComparison left op right = Throw ComparisonRequiresSameType
  /\ Linear.evaluateComparison left op right = Throw ComparisonRequiresSameType
  /\ fails_with (Hashed.evaluateComparison left op right) TypeMismatch.
Proof.
  intros Hidx.
  assert (H : Hashed.evaluateComparison left op right
              = Throw ComparisonRequiresSameType).
  { unfold Hashed.evaluateComparison.
    destruct (Nat.eqb_spec (index left) (index right)) as [Heq | Hne];
      [contradiction | reflexivity..]. }
  split; [exact H|]. split.
  - rewrite evaluateComparison_agree. exact H.
  - rewrite H. apply (fails_with_Throw ComparisonRequiresSameType).
Qed.

Lemma comparison_type_mismatch_witness :
  Hashed.evaluateComparison (VInt 1) GREATER_EQUAL (VDouble (double_of_int64 1))
  = Throw ComparisonRequiresSameType.
Proof.
  apply (comparison_type_mismatch (VInt 1) (VDouble (double_of_int64 1))
           GREATER_EQUAL).
  simpl. lia.
Defined.

(** C8. On two booleans the four ordering operators throw "Unsupported
    comparison operation for boolean", an UnsupportedOperation, while [EQUAL]
    and [NOT_EQUAL] return: the first is [true] exactly when the operands are
    the same boolean, the second exactly when they are not.  The two
    translation units agree on it. *)
Theorem boolean_comparison (l r : bool) (op : ComparisonOperations) :
  Hashed.evaluateComparison (VBool l) op (VBool r)
  = (if is_ordering op then Throw UnsupportedComparisonForBoolean
     else match op with
          | EQUAL => Ok (bool_decide (l = r))
          | _ => Ok (bool_decide (l <> r))
          end)
  /\ Linear.evaluateComparison (VBool l) op (VBool r)
     = Hashed.evaluateComparison (VBool l) op (VBool r)
  /\ kind UnsupportedComparisonForBoolean = UnsupportedOperation.
Proof.
  split; [|split; [apply evaluateComparison_agree | reflexivity..]].
  destruct op, l, r; reflexivity.
Qed.

(** C6. [DIVIDE] by a right operand that is the integer zero, or a [double]
    that compares equal to [0.0] (either sign of zero), throws "Division by
    zero" for every numeric left operand; the call yields no value, so in
    particular no infinity. *)
Theorem divide_by_zero (left right : ValueType) :
  is_numeric left = true ->
  right = VInt 0 \/ (exists d, right = VDouble d /\ deq d dzero = true) ->
  evaluateArithmetic left DIVIDE right = Throw DivisionByZeroException
  /\ fails_with (evaluateArithmetic left DIVIDE right) DivisionByZero
  /\ forall d, is_infinity d = true ->
       evaluateArithmetic left DIVIDE right <> Ok (VDouble d).
Proof.
  intros Hnum Hzero.
  assert (H : evaluateArithmetic left DIVIDE right
              = Throw DivisionByZeroException).
  { destruct Hzero as [-> | (d & -> & Hd)].
    - destruct left; try discriminate; reflexivity.
    - destruct left; try discriminate; simpl; rewrite Hd; reflexivity. }
  rewrite H. split; [reflexivity|]. split.
  - apply (fails_with_Throw DivisionByZeroException).
  - intros d _. discriminate.
Qed.

Lemma divide_by_zero_witness :
  evaluateArithmetic (VDouble (S754_infinity false)) DIVIDE
    (VDouble (S754_zero true)) = Throw DivisionByZeroException
  /\ evaluateArithmetic (VInt (-7)) DIVIDE (VInt 0)
     = Throw DivisionByZeroException.
Proof.
  split.
  - apply (divide_by_zero (VDouble (S754_infinity false))
             (VDouble (S754_zero true))).
    + reflexivity.
    + right. exists (S754_zero true). split; reflexivity.
  - apply (divide_by_zero (VInt (-7)) (VInt 0)).
    + reflexivity.
    + left. reflexivity.
Defined.

(** C1. No short-circuit: a sub-expression whose evaluation throws makes the
    whole call fail, wherever it stands in the condition: the call returns no
    boolean.  It throws, unless the integer division of an earlier
    sub-expression has crashed the process first; so it throws whenever no
    sub-expression of the condition crashes on the record.  When the
    sub-expressions before it have been folded into an accumulator [acc], the
    call throws that very exception for either value of [acc], also for
    [false] before an [AND] and for [true] before an [OR]. *)
Theorem no_short_circuit (condition : FilterCondition) (keys : list Key)
    (subExpr : SubExpression) (e : ParseException) :
  subExpr ∈ sub_expressions condition ->
  Hashed.evaluateExpression (Hashed.buildKeyMap keys) (expr subExpr) = Throw e ->
  fails (evaluate (initialize condition) keys)
  /\ ((forall other,
         other ∈ sub_expressions condition ->
         Hashed.evaluateExpression (Hashed.buildKeyMap keys) (expr other)
         <> Crash) ->
      throws (evaluate (initialize condition) keys))
  /\ forall pre post acc,
       sub_expressions condition = pre ++ subExpr :: post ->
       Hashed.loop (Hashed.buildKeyMap keys) pre true = Ok acc ->
       evaluate (initialize condition) keys = Throw e.
Proof.
  intros Hin He. unfold evaluate, initialize, Hashed.parse.
  pose proof (loop_fails _ _ subExpr true e Hin He) as Hfails.
  split; [exact Hfails | split].
  - intros Hall. destruct Hfails as [Hthrows | Hcrash]; [exact Hthrows|].
    exfalso. apply (loop_no_crash _ _ true Hall). exact Hcrash.
  - intros pre post acc Hsubs Hpre.
    rewrite Hsubs, loop_app, Hpre. simpl. rewrite He. reflexivity.
Qed.

Lemma no_short_circuit_witness :
  Hashed.loop
    (Hashed.buildKeyMap [mkKey "a" (VInt 2)])
    [mkSub (Unary (mkUnary EQUAL "a" (VInt 1))) NONE] true = Ok false
  /\ evaluate
       (initialize
          (mkCondition
             [mkSub (Unary (mkUnary EQUAL "a" (VInt 1))) NONE;
              mkSub (Unary (mkUnary EQUAL "missing" (VInt 1))) AND]))
       [mkKey "a" (VInt 2)]
     = Throw (KeyNotFoundException "missing").
Proof.
  split; [reflexivity|].
  apply (proj2 (proj2 (no_short_circuit
                  (mkCondition
                     [mkSub (Unary (mkUnary EQUAL "a" (VInt 1))) NONE;
                      mkSub (Unary (mkUnary EQUAL "missing" (VInt 1))) AND])
                  [mkKey "a" (VInt 2)]
                  (mkSub (Unary (mkUnary EQUAL "missing" (VInt 1))) AND)
                  (KeyNotFoundException "missing")
                  ltac:(simpl; right; left)
                  ltac:(reflexivity)))
           [mkSub (Unary (mkUnary EQUAL "a" (VInt 1))) NONE] [] false);
    reflexivity.
Defined.

(** C3. The map keeps, for each name, the value of the last key of the
    record that carries it: resolving the name gives that value, and a unary
    sub-expression on the name compares that value.  Resolving a name that
    no key carries throws "Key not found: <name>", a KeyNotFound, in the
    hash-map unit and in the linear one. *)
Theorem resolve_last_wins (pre post : list Key) (k : Key) :
  getName k ∉ names post ->
  Hashed.getValueFromKeyMap (Hashed.buildKeyMap (pre ++ k :: post)) (getName k)
  = Ok (getValue k)
  /\ (forall op literal,
        Hashed.evaluateExpression (Hashed.buildKeyMap (pre ++ k :: post))
          (Unary (mkUnary op (getName k) literal))
        = Hashed.evaluateComparison (getValue k) op literal)
  /\ (forall name,
        name ∉ names (pre ++ k :: post) ->
        Hashed.getValueFromKeyMap (Hashed.buildKeyMap (pre ++ k :: post)) name
        = Throw (KeyNotFoundException name)
        /\ Linear.getValueFromKey (pre ++ k :: post) name
           = Throw (KeyNotFoundException name)
        /\ kind (KeyNotFoundException name) = KeyNotFound).
Proof.
  intros Hpost.
  assert (H : Hashed.getValueFromKeyMap
                (Hashed.buildKeyMap (pre ++ k :: post)) (getName k)
              = Ok (getValue k)).
  { unfold Hashed.getValueFromKeyMap.
    rewrite buildKeyMap_last by exact Hpost. reflexivity. }
  split; [exact H|]. split.
  - intros op literal. simpl. rewrite H. reflexivity.
  - intros name Hname. split; [|split; [|reflexivity..]].
    + unfold Hashed.getValueFromKeyMap.
      rewrite buildKeyMap_absent by exact Hname. reflexivity.
    + apply getValueFromKey_absent. exact Hname.
Qed.

Lemma resolve_last_wins_witness :
  Hashed.getValueFromKeyMap
    (Hashed.buildKeyMap
       [mkKey "a" (VInt 1); mkKey "b" (VBool true); mkKey "a" (VInt 2)]) "a"
  = Ok (VInt 2).
Proof.
  apply (resolve_last_wins [mkKey "a" (VInt 1); mkKey "b" (VBool true)] []
           (mkKey "a" (VInt 2))).
  simpl. apply not_elem_of_nil.
Defined.

(** C10. On a record whose key names are pairwise distinct the linear-search
    evaluator and the hash-map evaluator give the same outcome: the same
    boolean, or the same exception.  They agree on every sub-expression taken
    alone, and the fold over the sub-results is the same, so an exception is
    thrown by the same sub-expression. *)
Theorem parse_equivalence (condition : FilterCondition) (keys : list Key) :
  NoDup (names keys) ->
  Linear.parse condition keys = Hashed.parse condition keys
  /\ (forall e,
        Linear.evaluateExpression keys e
        = Hashed.evaluateExpression (Hashed.buildKeyMap keys) e)
  /\ (forall n,
        Linear.parse (mkCondition (take n (sub_expressions condition))) keys
        = Hashed.parse (mkCondition (take n (sub_expressions condition))) keys).
Proof.
  intros Hnd. split; [|split].
  - apply loop_agree. exact Hnd.
  - intros e. apply evaluateExpression_agree. exact Hnd.
  - intros n. apply loop_agree. exact Hnd.
Qed.

Lemma parse_equivalence_witness :
  Linear.parse
    (mkCondition
       [mkSub (Unary (mkUnary GREATER_THAN "a" (VInt 10))) NONE;
        mkSub (Binary (mkBinary "a" DIVIDE "b" EQUAL (VInt 0))) OR])
    [mkKey "a" (VInt 15); mkKey "b" (VInt 0)]
  = Hashed.parse
      (mkCondition
         [mkSub (Unary (mkUnary GREATER_THAN "a" (VInt 10))) NONE;
          mkSub (Binary (mkBinary "a" DIVIDE "b" EQUAL (VInt 0))) OR])
      [mkKey "a" (VInt 15); mkKey "b" (VInt 0)].
Proof.
  apply (parse_equivalence
           (mkCondition
              [mkSub (Unary (mkUnary GREATER_THAN "a" (VInt 10))) NONE;
               mkSub (Binary (mkBinary "a" DIVIDE "b" EQUAL (VInt 0))) OR])
           [mkKey "a" (VInt 15); mkKey "b" (VInt 0)]).
  unfold names. simpl. apply NoDup_cons. split.
  - apply not_elem_of_cons. split; [discriminate | apply not_elem_of_nil].
  - apply NoDup_singleton.
Defined.

(** C2, as stated, fails: an earlier sub-expression that throws is not
    discarded by a later [NONE], and neither is the exception of an earlier
    [NOT] tag.  Here the last sub-expression is tagged [NONE] and evaluates
    to [true], yet the call throws the exception of the first one: "Key not
    found" when the first one refers to a missing key, "Unsupported logical
    operation" when the first one evaluates to [true] but is tagged [NOT]. *)
Lemma none_last_counterexample :
  let first := mkSub (Unary (mkUnary EQUAL "missing" (VInt 1))) NONE in
  let first_not := mkSub (Unary (mkUnary EQUAL "a" (VInt 1))) NOT in
  let last := mkSub (Unary (mkUnary EQUAL "a" (VInt 1))) NONE in
  let keys := [mkKey "a" (VInt 1)] in
  prev_logical_op last = NONE
  /\ Hashed.evaluateExpression (Hashed.buildKeyMap keys) (expr last) = Ok true
  /\ evaluate (initialize (mkCondition [first; last])) keys
     = Throw (KeyNotFoundException "missing")
  /\ evaluate (initialize (mkCondition [first; last])) keys
     <> Hashed.evaluateExpression (Hashed.buildKeyMap keys) (expr last)
  /\ Hashed.evaluateExpression (Hashed.buildKeyMap keys) (expr first_not)
     = Ok true
  /\ evaluate (initialize (mkCondition [first_not; last])) keys
     = Throw UnsupportedLogicalOperation
  /\ evaluate (initialize (mkCondition [first_not; last])) keys
     <> Hashed.evaluateExpression (Hashed.buildKeyMap keys) (expr last).
Proof.
  repeat split; try reflexivity; discriminate.
Qed.

(** C2, amended. A sub-expression tagged [NONE] replaces the accumulator by
    its own result, whatever the accumulator held.  Hence, when each
    sub-expression before it evaluates to a boolean and none of them is
    tagged [NOT], the call gives what the condition cut at that
    sub-expression gives; and when it is the last one, exactly its own
    result. *)
Theorem none_discards_accumulator (condition : FilterCondition)
    (keys : list Key) (pre post : list SubExpression) (subExpr : SubExpression) :
  sub_expressions condition = pre ++ subExpr :: post ->
  prev_logical_op subExpr = NONE ->
  (forall earlier, earlier ∈ pre ->
     (exists b,
        Hashed.evaluateExpression (Hashed.buildKeyMap keys) (expr earlier)
        = Ok b)
     /\ prev_logical_op earlier <> NOT) ->
  (forall result subResult,
     Hashed.combine result (prev_logical_op subExpr) subResult = Ok subResult)
  /\ evaluate (initialize condition) keys
     = evaluate (initialize (mkCondition (subExpr :: post))) keys
  /\ (post = [] ->
      evaluate (initialize condition) keys
      = Hashed.evaluateExpression (Hashed.buildKeyMap keys) (expr subExpr)).
Proof.
  intros Hsubs Hop Hearlier.
  destruct (loop_returns (Hashed.buildKeyMap keys) pre true Hearlier)
    as [acc Hpre].
  assert (Hcut : evaluate (initialize condition) keys
                 = evaluate (initialize (mkCondition (subExpr :: post))) keys).
  { unfold evaluate, initialize, Hashed.parse.
    rewrite Hsubs, loop_app, Hpre.
    cbn [mbind Result_bind sub_expressions].
    rewrite !loop_NONE_head by exact Hop. reflexivity. }
  split; [|split].
  - intros result subResult. rewrite Hop. reflexivity.
  - exact Hcut.
  - intros ->. rewrite Hcut.
    unfold evaluate, initialize, Hashed.parse.
    cbn [sub_expressions]. rewrite loop_NONE_head by exact Hop.
    simpl. apply bind_Ok_r.
Qed.

Lemma none_discards_accumulator_witness :
  evaluate
    (initialize
       (mkCondition
          [mkSub (Unary (mkUnary EQUAL "a" (VInt 1))) NONE;
           mkSub (Unary (mkUnary LESS_THAN "b" (VInt 5))) NONE]))
    [mkKey "a" (VInt 1); mkKey "b" (VInt 9)]
  = Hashed.evaluateExpression
      (Hashed.buildKeyMap [mkKey "a" (VInt 1); mkKey "b" (VInt 9)])
      (Unary (mkUnary LESS_THAN "b" (VInt 5))).
Proof.
  apply (proj2 (proj2 (none_discards_accumulator
           (mkCondition
              [mkSub (Unary (mkUnary EQUAL "a" (VInt 1))) NONE;
               mkSub (Unary (mkUnary LESS_THAN "b" (VInt 5))) NONE])
           [mkKey "a" (VInt 1); mkKey "b" (VInt 9)]
           [mkSub (Unary (mkUnary EQUAL "a" (VInt 1))) NONE] []
           (mkSub (Unary (mkUnary LESS_THAN "b" (VInt 5))) NONE)
           eq_refl eq_refl
           ltac:(intros earlier Hin;
                 apply list_elem_of_singleton in Hin as ->;
                 split; [exists true; reflexivity | discriminate])))).
  reflexivity.
Defined.

(** C5, as stated, fails: with [DIVIDE] and a zero right operand, two
    integers give no integer and two numeric operands give no float; the call
    throws.  Nor do the two integers [INT64_MIN] and [-1] give an integer
    under [DIVIDE]: that division is not guarded and crashes. *)
Lemma promotion_counterexample :
  evaluateArithmetic (VInt 1) DIVIDE (VInt 0) = Throw DivisionByZeroException
  /\ (forall z, evaluateArithmetic (VInt 1) DIVIDE (VInt 0) <> Ok (VInt z))
  /\ evaluateArithmetic (VDouble d2_5) DIVIDE (VInt 0)
     = Throw DivisionByZeroException
  /\ (forall d, evaluateArithmetic (VDouble d2_5) DIVIDE (VInt 0)
                <> Ok (VDouble d))
  /\ evaluateArithmetic (VInt int64_min) DIVIDE (VInt (-1)) = Crash
  /\ (forall z, evaluateArithmetic (VInt int64_min) DIVIDE (VInt (-1))
                <> Ok (VInt z)).
Proof.
  repeat split; try reflexivity; intros; discriminate.
Qed.

(** C5, amended. The promotion rule of [evaluateArithmetic], for each of the
    four operators.  Two integers: the operator of the 64-bit integer domain,
    the result an integer in range.  Two numeric operands of which one at
    least is a [double]: both are read as [double], the operator is that of
    the floating-point domain, the result a [double].  In these two cases
    [DIVIDE] by a right operand that is zero throws "Division by zero"
    instead.  An operand that holds a string or a boolean: "Arithmetic
    operations require numeric types", a TypeMismatch.  Nothing is stated of
    [INT64_MIN DIVIDE -1], the one integer division whose quotient is out of
    range: the code does not guard it (see [promotion_counterexample]). *)
Theorem promotion_rule (left right : ValueType) (op : ArithmeticOperations) :
  (forall l r, left = VInt l -> right = VInt r ->
     ~ (op = DIVIDE /\ l = int64_min /\ r = -1) ->
     evaluateArithmetic left op right
     = (if is_divide op && (r =? 0) then Throw DivisionByZeroException
        else Ok (VInt (int64_op op l r)))
     /\ in_int64 (int64_op op l r))
  /\ (is_numeric left = true -> is_numeric right = true ->
      holds_double left || holds_double right = true ->
      evaluateArithmetic left op right
      = (if is_divide op && deq (promote right) dzero
         then Throw DivisionByZeroException
         else Ok (VDouble (double_op op (promote left) (promote right)))))
  /\ (is_numeric left && is_numeric right = false ->
      evaluateArithmetic left op right = Throw ArithmeticRequiresNumeric
      /\ fails_with (evaluateArithmetic left op right) TypeMismatch).
Proof.
  split; [|split].
  - intros l r -> -> Hslip. split.
    + destruct op; try reflexivity. simpl.
      destruct (Z.eqb_spec r 0) as [Hr0 | Hr0]; [reflexivity|].
      destruct (Z.eqb_spec l int64_min) as [Hl | Hl]; [|reflexivity].
      destruct (Z.eqb_spec r (-1)) as [Hr | Hr]; [|reflexivity].
      exfalso. apply Hslip. repeat split; assumption.
    + destruct op; apply wrap64_in_int64.
  - intros Hl Hr Hd.
    destruct left, right; try discriminate; destruct op; simpl;
      try reflexivity;
      match goal with |- context [deq ?x dzero] => destruct (deq x dzero) end;
      reflexivity.
  - intros Hnum.
    assert (H : evaluateArithmetic left op right
                = Throw ArithmeticRequiresNumeric)
      by (destruct left, right; try discriminate; reflexivity).
    rewrite H. split; [reflexivity|].
    apply (fails_with_Throw ArithmeticRequiresNumeric).
Qed.

Lemma promotion_rule_witness :
  evaluateArithmetic (VInt 7) MULTIPLY (VInt 6) = Ok (VInt 42)
  /\ evaluateArithmetic (VDouble d2_5) ADD (VInt 3)
     = Ok (VDouble (dyadic 11 (-1)))
  /\ evaluateArithmetic (VInt 1) ADD (VBool true)
     = Throw ArithmeticRequiresNumeric.
Proof.
  split; [|split].
  - rewrite (proj1 (proj1 (promotion_rule (VInt 7) (VInt 6) MULTIPLY)
                      7 6 eq_refl eq_refl
                      ltac:(intros [Hop _]; discriminate Hop))).
    reflexivity.
  - rewrite (proj1 (proj2 (promotion_rule (VDouble d2_5) (VInt 3) ADD))
               eq_refl eq_refl eq_refl).
    vm_compute. reflexivity.
  - apply (proj1 (proj2 (proj2 (promotion_rule (VInt 1) (VBool true) ADD))
                    eq_refl)).
Defined.

(** ** A predicate of one unary sub-expression *)

(** The call resolves the key and compares its current value with the
    literal; under [NONE] and under [AND] the fold from [true] returns the
    comparison as it is. *)
Lemma single_unary (pre post : list Key) (key : Key) (v literal : ValueType)
    (op : ComparisonOperations) (lop : LogicalOperations) :
  getName key ∉ names post ->
  lop = NONE \/ lop = AND ->
  evaluate (initialize (single (Unary (mkUnary op (getName key) literal)) lop))
    (pre ++ setValue key v :: post)
  = Hashed.evaluateComparison v op literal.
Proof.
  intros Hpost Hlop.
  unfold evaluate, initialize, Hashed.parse, single, Hashed.getValueFromKeyMap.
  cbn [sub_expressions Hashed.loop Hashed.evaluateExpression expr u_key u_op
       u_value prev_logical_op].
  unfold Hashed.getValueFromKeyMap.
  change (getName key) with (getName (setValue key v)) at 1.
  rewrite buildKeyMap_last by exact Hpost.
  cbn [getValue setValue mbind Result_bind].
  destruct (Hashed.evaluateComparison v op literal) as [b|e|]; [|reflexivity..].
  destruct Hlop as [-> | ->]; reflexivity.
Qed.

(** [EQUAL] on two values of one alternative other than [double] is the
    equality of the values. *)
Lemma equal_same_alternative (v literal : ValueType) :
  index v = index literal ->
  holds_double literal = false ->
  exists b, Hashed.evaluateComparison v EQUAL literal = Ok b
            /\ (b = true <-> v = literal).
Proof.
  intros Hidx Hnd.
  destruct v as [x | x | x | x], literal as [y | y | y | y];
    try discriminate; simpl; eexists; (split; [reflexivity|]).
  - rewrite Z.eqb_eq. split; congruence.
  - unfold seq. rewrite Strings.String.eqb_eq. split; congruence.
  - rewrite Bool.eqb_true_iff. split; congruence.
Qed.

(** C4, as stated, fails.  Replacing the value of the key by a value of
    another alternative makes the same predicate throw instead of returning
    [false]; a NaN is the same tag and the same payload as the NaN literal
    and yet not [EQUAL] to it; replacing [0.0] by the other value [-0.0]
    leaves the result [true]; and a single sub-expression tagged [OR] is
    folded into [true] whatever the comparison gives. *)
Lemma unary_equal_counterexample :
  let predicate := initialize (single (Unary (mkUnary EQUAL "a" (VInt 5))) NONE) in
  let predicate_nan :=
    initialize (single (Unary (mkUnary EQUAL "a" (VDouble S754_nan))) NONE) in
  let predicate_zero :=
    initialize (single (Unary (mkUnary EQUAL "a" (VDouble dzero))) NONE) in
  let predicate_or := initialize (single (Unary (mkUnary EQUAL "a" (VInt 5))) OR) in
  let key := mkKey "a" (VInt 5) in
  evaluate predicate [key] = Ok true
  /\ evaluate predicate [setValue key (VString "5")]
     = Throw ComparisonRequiresSameType
  /\ evaluate predicate [setValue key (VString "5")] <> Ok false
  /\ evaluate predicate_nan [mkKey "a" (VDouble S754_nan)] = Ok false
  /\ evaluate predicate_zero [mkKey "a" (VDouble dzero)] = Ok true
  /\ evaluate predicate_zero
       [setValue (mkKey "a" (VDouble dzero)) (VDouble (S754_zero true))]
     = Ok true
  /\ evaluate predicate_or [setValue key (VInt 6)] = Ok true.
Proof.
  repeat split; try reflexivity. discriminate.
Qed.

(** C4, amended. Take one predicate, compiled from a single unary [EQUAL]
    sub-expression on key [k] with literal [V], tagged [NONE] (or [AND]),
    and a record in which the last key named [k] currently holds [v],
    whatever replacement put [v] there.  If [v] and [V] hold different
    alternatives the call throws a TypeMismatch.  If they hold the same
    alternative and it is not [double], the call returns [true] exactly when
    [v] is [V], hence [false] after a replacement by another value of that
    alternative.  If both hold a [double] the call returns their IEEE-754
    equality. *)
Theorem unary_equal (pre post : list Key) (key : Key) (v V : ValueType)
    (lop : LogicalOperations) :
  getName key ∉ names post ->
  lop = NONE \/ lop = AND ->
  let predicate :=
    initialize (single (Unary (mkUnary EQUAL (getName key) V)) lop) in
  let keys := pre ++ setValue key v :: post in
  (index v <> index V ->
     evaluate predicate keys = Throw ComparisonRequiresSameType
     /\ fails_with (evaluate predicate keys) TypeMismatch)
  /\ (index v = index V -> holds_double V = false ->
      exists b, evaluate predicate keys = Ok b /\ (b = true <-> v = V))
  /\ (forall x y, v = VDouble x -> V = VDouble y ->
      evaluate predicate keys = Ok (deq x y)).
Proof.
  intros Hpost Hlop predicate keys.
  assert (H : evaluate predicate keys = Hashed.evaluateComparison v EQUAL V)
    by (apply single_unary; assumption).
  rewrite H. split; [|split].
  - intros Hidx.
    assert (Hthrow : Hashed.evaluateComparison v EQUAL V
                     = Throw ComparisonRequiresSameType).
    { unfold Hashed.evaluateComparison.
      destruct (Nat.eqb_spec (index v) (index V)); [contradiction|reflexivity]. }
    rewrite Hthrow. split; [reflexivity|].
    apply (fails_with_Throw ComparisonRequiresSameType).
  - apply equal_same_alternative.
  - intros x y -> ->. reflexivity.
Qed.

Lemma unary_equal_witness :
  (exists b,
     evaluate (initialize (single (Unary (mkUnary EQUAL "a" (VInt 5))) NONE))
       [setValue (mkKey "a" (VInt 5)) (VInt 6)] = Ok b
     /\ (b = true <-> VInt 6 = VInt 5))
  /\ evaluate (initialize (single (Unary (mkUnary EQUAL "a" (VInt 5))) NONE))
       [setValue (mkKey "a" (VInt 5)) (VBool true)]
     = Throw ComparisonRequiresSameType.
Proof.
  split.
  - apply (proj1 (proj2 (unary_equal [] [] (mkKey "a" (VInt 5)) (VInt 6)
                           (VInt 5) NONE (not_elem_of_nil _)
                           (or_introl eq_refl)))
             eq_refl eq_refl).
  - apply (proj1 (unary_equal [] [] (mkKey "a" (VInt 5)) (VBool true)
                    (VInt 5) NONE (not_elem_of_nil _) (or_introl eq_refl))).
    simpl. lia.
Defined.

(** ** Further properties: the relational operators *)

Lemma SFcompare_antisym (x y : double) :
  SFcompare y x = CompOpp <$> SFcompare x y.
Proof.
  destruct x as [sx | sx | | sx mx ex], y as [sy | sy | | sy my ey];
    try (destruct sx; reflexivity); try (destruct sy; reflexivity);
    try reflexivity;
    try (destruct sx, sy; reflexivity).
  simpl. destruct sx, sy; try reflexivity;
    rewrite (Z.compare_antisym ex ey);
    destruct (ex ?= ey) eqn:He; simpl; try reflexivity;
    rewrite (Pos.compare_cont_antisym mx my Eq); reflexivity.
Qed.

Lemma SFcompare_refl (x : double) :
  x <> S754_nan -> SFcompare x x = Some Eq.
Proof.
  destruct x as [s | s | | s m e]; intros Hx; try congruence;
    try (destruct s; reflexivity).
  simpl. rewrite Z.compare_refl, Pos.compare_cont_refl.
  destruct s; reflexivity.
Qed.

Lemma SFcompare_nan_l (y : double) : SFcompare S754_nan y = None.
Proof. reflexivity. Qed.

Lemma SFcompare_nan_r (x : double) : SFcompare x S754_nan = None.
Proof. destruct x; reflexivity. Qed.

Lemma SFcompare_total (x y : double) :
  x <> S754_nan -> y <> S754_nan -> exists c, SFcompare x y = Some c.
Proof.
  destruct x as [sx | sx | | sx mx ex], y as [sy | sy | | sy my ey];
    intros Hx Hy; try congruence; simpl; eexists; reflexivity.
Qed.

Lemma string_compare_refl (s : string) : Strings.String.compare s s = Eq.
Proof.
  induction s as [|a s IH]; simpl; [reflexivity|].
  unfold Ascii.compare. rewrite N.compare_refl. exact IH.
Qed.

Lemma deq_sym (x y : double) : deq x y = deq y x.
Proof.
  unfold deq, SFeqb. rewrite (SFcompare_antisym x y).
  destruct (SFcompare x y) as [[]|]; reflexivity.
Qed.

Lemma seq_sym (x y : string) : seq x y = seq y x.
Proof.
  unfold seq.
  destruct (Strings.String.eqb_spec x y) as [-> | Hne].
  - symmetry. apply Strings.String.eqb_refl.
  - symmetry. apply Strings.String.eqb_neq. congruence.
Qed.

(** The outcome of [String.compare] decides [==]. *)
Lemma string_eqb_compare (x y : string) :
  Strings.String.eqb x y
  = match Strings.String.compare x y with Eq => true | _ => false end.
Proof.
  destruct (Strings.String.eqb_spec x y) as [-> | Hne].
  - rewrite string_compare_refl. reflexivity.
  - destruct (Strings.String.compare x y) eqn:Hc; try reflexivity.
    apply Strings.String.compare_eq_iff in Hc. contradiction.
Qed.

(** X1. Swapping the operands and mirroring the operator ([>] with [<],
    [>=] with [<=], [==] and [!=] kept) gives the same outcome, a thrown
    exception included. *)
Theorem comparison_mirror (left right : ValueType) (op : ComparisonOperations) :
  Hashed.evaluateComparison left op right
  = Hashed.evaluateComparison right (mirror op) left
  /\ Linear.evaluateComparison left op right
     = Linear.evaluateComparison right (mirror op) left.
Proof.
  assert (H : Hashed.evaluateComparison left op right
              = Hashed.evaluateComparison right (mirror op) left).
  { destruct left as [l | l | l | l], right as [r | r | r | r];
      try reflexivity; destruct op; unfold Hashed.evaluateComparison, Hashed.compare; simpl; try reflexivity; f_equal.
    - apply Z.eqb_sym.
    - f_equal. apply Z.eqb_sym.
    - apply Z.gtb_ltb.
    - symmetry. apply Z.gtb_ltb.
    - apply Z.geb_leb.
    - symmetry. apply Z.geb_leb.
    - apply deq_sym.
    - unfold dne. f_equal. apply deq_sym.
    - apply seq_sym.
    - unfold sne. f_equal. apply seq_sym.
    - destruct l, r; reflexivity.
    - destruct l, r; reflexivity. }
  split; [exact H|]. rewrite !evaluateComparison_agree. exact H.
Qed.

(** X2. On two values of one alternative, neither a NaN, an operator and
    its complement ([==] and [!=], [<] and [>=], [>] and [<=]) give opposite
    booleans whenever the comparison returns. *)
Theorem comparison_negate (left right : ValueType) (op : ComparisonOperations)
    (b : bool) :
  is_nan left = false -> is_nan right = false ->
  Hashed.evaluateComparison left op right = Ok b ->
  Hashed.evaluateComparison left (negate op) right = Ok (negb b).
Proof.
  intros Hl Hr.
  destruct left as [l | l | l | l], right as [r | r | r | r];
    try discriminate.
  - destruct op; unfold Hashed.evaluateComparison, Hashed.compare; simpl; intros [= <-]; f_equal;
      rewrite ?Z.gtb_ltb, ?Z.geb_leb, ?negb_involutive;
      try reflexivity;
      rewrite ?(Z.ltb_antisym l r), ?(Z.leb_antisym l r), ?(Z.ltb_antisym r l),
        ?(Z.leb_antisym r l), ?negb_involutive; reflexivity.
  - assert (Hl' : l <> S754_nan) by (intros ->; discriminate).
    assert (Hr' : r <> S754_nan) by (intros ->; discriminate).
    destruct (SFcompare_total l r Hl' Hr') as [c Hc].
    destruct op; unfold Hashed.evaluateComparison, Hashed.compare; simpl; intros [= <-]; f_equal;
      unfold deq, dne, dgt, dlt, dge, dle, SFeqb, SFltb, SFleb;
      rewrite ?(SFcompare_antisym l r), Hc; destruct c; reflexivity.
  - destruct op; unfold Hashed.evaluateComparison, Hashed.compare; simpl; intros [= <-]; f_equal;
      unfold seq, sne, sgt, slt, sge, sle, Strings.String.ltb,
        Strings.String.leb;
      rewrite ?string_eqb_compare, ?(Strings.String.compare_antisym r l);
      destruct (Strings.String.compare l r); reflexivity.
  - destruct op; unfold Hashed.evaluateComparison, Hashed.compare; simpl; try discriminate; intros [= <-]; f_equal;
      destruct l, r; reflexivity.
Qed.

Lemma comparison_negate_witness :
  Hashed.evaluateComparison (VString "mango") GREATER_EQUAL (VString "z")
  = Ok false.
Proof.
  apply (comparison_negate (VString "mango") (VString "z") LESS_THAN true);
    reflexivity.
Defined.

(** X3. A NaN compares unordered: with a NaN on either side, [!=] returns
    [true] and the five other operators return [false]. *)
Theorem comparison_nan (d : double) (op : ComparisonOperations) :
  Hashed.evaluateComparison (VDouble S754_nan) op (VDouble d)
  = Ok (match op with NOT_EQUAL => true | _ => false end)
  /\ Hashed.evaluateComparison (VDouble d) op (VDouble S754_nan)
     = Ok (match op with NOT_EQUAL => true | _ => false end).
Proof.
  split;
    destruct op; unfold Hashed.evaluateComparison, Hashed.compare; simpl;
    f_equal; unfold deq, dne, dgt, dlt, dge, dle, SFeqb, SFltb, SFleb;
    rewrite ?SFcompare_nan_r; reflexivity.
Qed.

(** X4. Trichotomy: on two integers, two strings, or two [double] that are
    not NaN, exactly one of [<], [==], [>] returns [true]. *)
Theorem comparison_trichotomy (left right : ValueType) :
  index left = index right -> holds_bool left = false ->
  is_nan left = false -> is_nan right = false ->
  exists lt eq gt,
    Hashed.evaluateComparison left LESS_THAN right = Ok lt
    /\ Hashed.evaluateComparison left EQUAL right = Ok eq
    /\ Hashed.evaluateComparison left GREATER_THAN right = Ok gt
    /\ (lt && negb eq && negb gt) || (negb lt && eq && negb gt)
       || (negb lt && negb eq && gt) = true.
Proof.
  intros Hidx Hb Hl Hr.
  destruct left as [l | l | l | l], right as [r | r | r | r];
    try discriminate; unfold Hashed.evaluateComparison, Hashed.compare; simpl;
    eexists; eexists; eexists;
    (split; [reflexivity | split; [reflexivity | split; [reflexivity|]]]).
  - rewrite Z.gtb_ltb.
    destruct (Z.ltb_spec l r), (Z.eqb_spec l r), (Z.ltb_spec r l);
      simpl; try reflexivity; lia.
  - assert (Hl' : l <> S754_nan) by (intros ->; discriminate).
    assert (Hr' : r <> S754_nan) by (intros ->; discriminate).
    destruct (SFcompare_total l r Hl' Hr') as [c Hc].
    unfold deq, dgt, dlt, SFeqb, SFltb.
    rewrite (SFcompare_antisym l r), Hc. destruct c; reflexivity.
  - unfold seq, sgt, slt, Strings.String.ltb.
    rewrite string_eqb_compare, (Strings.String.compare_antisym r l).
    destruct (Strings.String.compare l r); reflexivity.
Qed.

Lemma comparison_trichotomy_witness :
  exists lt eq gt,
    Hashed.evaluateComparison (VInt 3) LESS_THAN (VInt 7) = Ok lt
    /\ Hashed.evaluateComparison (VInt 3) EQUAL (VInt 7) = Ok eq
    /\ Hashed.evaluateComparison (VInt 3) GREATER_THAN (VInt 7) = Ok gt
    /\ (lt && negb eq && negb gt) || (negb lt && eq && negb gt)
       || (negb lt && negb eq && gt) = true.
Proof.
  apply (comparison_trichotomy (VInt 3) (VInt 7)); reflexivity.
Defined.

(** X5. [evaluateComparison] returns exactly when the two values hold the
    same alternative and, if that is [bool], the operator is [==] or [!=];
    otherwise it throws one of its two reachable exceptions. *)
Theorem comparison_returns_iff (left right : ValueType)
    (op : ComparisonOperations) :
  ((exists b, Hashed.evaluateComparison left op right = Ok b)
   <-> index left = index right /\ holds_bool left && is_ordering op = false)
  /\ (forall e, Hashed.evaluateComparison left op right = Throw e ->
        e = ComparisonRequiresSameType \/ e = UnsupportedComparisonForBoolean).
Proof.
  split; [split|].
  - intros [b Hb].
    destruct left, right; try discriminate; destruct op; try discriminate;
      split; reflexivity.
  - intros [Hidx Hop].
    destruct left, right; try discriminate; destruct op; try discriminate;
      simpl; eexists; reflexivity.
  - intros e.
    destruct left, right, op; unfold Hashed.evaluateComparison, Hashed.compare;
      simpl; intros [= <-]; auto.
Qed.

(** ** Further properties: arithmetic *)

Lemma wrap64_id (z : Z) : in_int64 z -> wrap64 z = z.
Proof.
  unfold in_int64, wrap64, int64_min, int64_max. intros Hz.
  rewrite Z.mod_small; lia.
Qed.

Lemma wrap64_add_l (x y : Z) : wrap64 (wrap64 x + y) = wrap64 (x + y).
Proof.
  unfold wrap64. f_equal.
  replace ((x + 2 ^ 63) mod 2 ^ 64 - 2 ^ 63 + y + 2 ^ 63)
    with ((x + 2 ^ 63) mod 2 ^ 64 + y) by lia.
  rewrite Zplus_mod_idemp_l. f_equal. lia.
Qed.

(** X6. Without overflow the integer branch is exact: when the operands and
    the mathematical result are in the 64-bit range (and the divisor is not
    zero), the call returns that result; [DIVIDE] truncates toward zero. *)
Theorem integer_arithmetic_exact (l r : Z) (op : ArithmeticOperations) :
  in_int64 l -> in_int64 r ->
  (op = DIVIDE -> r <> 0) ->
  in_int64 (exact_op op l r) ->
  evaluateArithmetic (VInt l) op (VInt r) = Ok (VInt (exact_op op l r)).
Proof.
  intros Hl Hr Hdiv Hres. destruct op; simpl in *;
    rewrite ?(wrap64_id _ Hres); try reflexivity.
  destruct (Z.eqb_spec r 0) as [Heq | Hne].
  - exfalso. apply (Hdiv eq_refl). exact Heq.
  - destruct (Z.eqb_spec l int64_min) as [-> | Hmin]; [|reflexivity].
    destruct (Z.eqb_spec r (-1)) as [-> | Hm1]; [|reflexivity].
    exfalso. revert Hres. unfold in_int64, int64_min, int64_max.
    change (Z.quot (- 2 ^ 63) (-1)) with (2 ^ 63). lia.
Qed.

Lemma integer_arithmetic_exact_witness :
  evaluateArithmetic (VInt (-7)) DIVIDE (VInt 2) = Ok (VInt (-3)).
Proof.
  apply (integer_arithmetic_exact (-7) 2 DIVIDE).
  - unfold in_int64, int64_min, int64_max. lia.
  - unfold in_int64, int64_min, int64_max. lia.
  - intros _. discriminate.
  - vm_compute. split; discriminate.
Defined.

(** X7. Adding an integer and subtracting it again gives the left operand
    back, also when the sum wraps around; likewise subtracting and adding. *)
Theorem add_subtract_round_trip (a b : Z) :
  in_int64 a ->
  (v ← evaluateArithmetic (VInt a) ADD (VInt b);
   evaluateArithmetic v SUBTRACT (VInt b)) = Ok (VInt a)
  /\ (v ← evaluateArithmetic (VInt a) SUBTRACT (VInt b);
      evaluateArithmetic v ADD (VInt b)) = Ok (VInt a).
Proof.
  intros Ha. simpl. split; f_equal; f_equal.
  - replace (wrap64 (a + b) - b) with (wrap64 (a + b) + - b) by lia.
    rewrite wrap64_add_l.
    replace (a + b + - b) with a by lia. apply wrap64_id. exact Ha.
  - replace (a - b) with (a + - b) by lia.
    rewrite wrap64_add_l.
    replace (a + - b + b) with a by lia. apply wrap64_id. exact Ha.
Qed.

Lemma add_subtract_round_trip_witness :
  (v ← evaluateArithmetic (VInt int64_max) ADD (VInt 5);
   evaluateArithmetic v SUBTRACT (VInt 5)) = Ok (VInt int64_max).
Proof.
  apply (add_subtract_round_trip int64_max 5).
  unfold in_int64, int64_min, int64_max. lia.
Defined.




(** ** Further properties: records and resolution *)

Section Records.

Implicit Types (keys pre post : list Key) (keyMap : gmap string ValueType).

(** What the filling loop leaves under [name] depends on the starting map
    only through its entry for [name]. *)
Lemma fill_lookup_congr keys keyMap keyMap' (name : string) :
  keyMap !! name = keyMap' !! name ->
  foldl (fun m key => <[getName key := getValue key]> m) keyMap keys !! name
  = foldl (fun m key => <[getName key := getValue key]> m) keyMap' keys !! name.
Proof.
  revert keyMap keyMap'.
  induction keys as [|k keys IH]; intros keyMap keyMap' Heq; simpl.
  - exact Heq.
  - apply IH. destruct (decide (getName k = name)) as [<- | Hne].
    + rewrite !lookup_insert_eq. reflexivity.
    + rewrite !lookup_insert_ne by exact Hne. exact Heq.
Qed.

(** And not at all when some key of the loop carries [name]. *)
Lemma fill_lookup_in keys keyMap keyMap' (name : string) :
  name ∈ names keys ->
  foldl (fun m key => <[getName key := getValue key]> m) keyMap keys !! name
  = foldl (fun m key => <[getName key := getValue key]> m) keyMap' keys !! name.
Proof.
  revert keyMap keyMap'.
  induction keys as [|k keys IH]; intros keyMap keyMap' Hin.
  - unfold names in Hin. simpl in Hin. inversion Hin.
  - simpl. destruct (decide (getName k = name)) as [<- | Hne].
    + apply fill_lookup_congr. rewrite !lookup_insert_eq. reflexivity.
    + apply IH. unfold names in Hin. rewrite fmap_cons in Hin.
      apply elem_of_cons in Hin as [Heq | Hin]; [congruence | exact Hin].
Qed.

Lemma key_eta (k : Key) : mkKey (getName k) (getValue k) = k.
Proof. destruct k. reflexivity. Qed.

(** Removing a key changes the entry of no other name. *)
Lemma buildKeyMap_remove_other pre (k : Key) post (name : string) :
  name <> getName k ->
  Hashed.buildKeyMap (pre ++ k :: post) !! name
  = Hashed.buildKeyMap (pre ++ post) !! name.
Proof.
  intros Hne. unfold Hashed.buildKeyMap. rewrite !fill_app. simpl.
  apply fill_lookup_congr. apply lookup_insert_ne. congruence.
Qed.

(** A key that a later key shadows can be removed. *)
Lemma buildKeyMap_remove_shadowed pre (k : Key) post :
  getName k ∈ names post ->
  Hashed.buildKeyMap (pre ++ k :: post) = Hashed.buildKeyMap (pre ++ post).
Proof.
  intros Hin. apply map_eq. intros name.
  destruct (decide (name = getName k)) as [-> | Hne].
  - unfold Hashed.buildKeyMap. rewrite !fill_app. simpl.
    apply fill_lookup_in. exact Hin.
  - apply buildKeyMap_remove_other. exact Hne.
Qed.

(** With distinct names the entry of a key's name is that key's value. *)
Lemma buildKeyMap_elem keys (k : Key) :
  NoDup (names keys) -> k ∈ keys ->
  Hashed.buildKeyMap keys !! getName k = Some (getValue k).
Proof.
  intros Hnd Hk. apply list_elem_of_split in Hk as (pre & post & ->).
  apply buildKeyMap_last.
  unfold names in Hnd. rewrite fmap_app, fmap_cons in Hnd.
  apply NoDup_app in Hnd as (_ & _ & Hnd).
  apply NoDup_cons in Hnd as (Hpost & _). exact Hpost.
Qed.

Lemma buildKeyMap_Permutation keys keys' :
  keys ≡ₚ keys' -> NoDup (names keys) ->
  Hashed.buildKeyMap keys = Hashed.buildKeyMap keys'.
Proof.
  intros Hperm Hnd.
  assert (Hnames : names keys ≡ₚ names keys')
    by (unfold names; rewrite Hperm; reflexivity).
  assert (Hnd' : NoDup (names keys')) by (rewrite <- Hnames; exact Hnd).
  apply map_eq. intros name.
  destruct (decide (name ∈ names keys)) as [Hin | Hout].
  - unfold names in Hin. apply list_elem_of_fmap in Hin as (k & -> & Hk).
    rewrite (buildKeyMap_elem keys k Hnd Hk).
    rewrite Hperm in Hk.
    rewrite (buildKeyMap_elem keys' k Hnd' Hk). reflexivity.
  - rewrite (buildKeyMap_absent keys name Hout).
    rewrite Hnames in Hout.
    rewrite (buildKeyMap_absent keys' name Hout). reflexivity.
Qed.

(** Evaluation reads the map only at the names the condition refers to. *)
Lemma evaluateExpression_ext keyMap keyMap' (e : Expression) :
  (forall name, name ∈ referenced_by e -> keyMap !! name = keyMap' !! name) ->
  Hashed.evaluateExpression keyMap e = Hashed.evaluateExpression keyMap' e.
Proof.
  intros Hext. destruct e as [u | b]; simpl; unfold Hashed.getValueFromKeyMap.
  - rewrite (Hext (u_key u)) by (simpl; left). reflexivity.
  - rewrite (Hext (left_key b)) by (simpl; left).
    rewrite (Hext (right_key b)) by (simpl; right; left). reflexivity.
Qed.

Lemma loop_ext keyMap keyMap' (subs : list SubExpression) (result : bool) :
  (forall name, name ∈ referenced (mkCondition subs) ->
     keyMap !! name = keyMap' !! name) ->
  Hashed.loop keyMap subs result = Hashed.loop keyMap' subs result.
Proof.
  revert result. induction subs as [|subExpr rest IH]; intros result Hext.
  - reflexivity.
  - simpl. unfold referenced in Hext. cbn [sub_expressions] in Hext.
    rewrite bind_cons in Hext.
    rewrite (evaluateExpression_ext keyMap keyMap' (expr subExpr)).
    + destruct (Hashed.evaluateExpression keyMap' (expr subExpr)); simpl;
        [|reflexivity..].
      destruct (Hashed.combine _ _ _); simpl; [|reflexivity..].
      apply IH. intros name Hin. apply Hext.
      apply elem_of_app. right. exact Hin.
    + intros name Hin. apply Hext. apply elem_of_app. left. exact Hin.
Qed.

End Records.

(** X9. The hash-map resolver returns a value exactly for the names some
    key of the record carries; the value it returns is the value of a key
    of the record with that name, and the only exception it throws is "Key
    not found" with the name asked for. *)
Theorem resolver_returns_iff (keys : list Key) (name : string) :
  ((exists v,
      Hashed.getValueFromKeyMap (Hashed.buildKeyMap keys) name = Ok v)
   <-> name ∈ names keys)
  /\ (forall v,
        Hashed.getValueFromKeyMap (Hashed.buildKeyMap keys) name = Ok v ->
        mkKey name v ∈ keys)
  /\ (forall e,
        Hashed.getValueFromKeyMap (Hashed.buildKeyMap keys) name = Throw e ->
        e = KeyNotFoundException name).
Proof.
  unfold Hashed.getValueFromKeyMap.
  destruct (decide (name ∈ names keys)) as [Hin | Hout].
  - destruct (last_key_exists keys name Hin)
      as (pre & k & post & -> & <- & Hpost).
    rewrite (buildKeyMap_last pre k post Hpost).
    split; [|split].
    + split; [intros _; exact Hin | intros _; eexists; reflexivity].
    + intros v [= <-]. rewrite key_eta.
      apply elem_of_app. right. left.
    + intros e. discriminate.
  - rewrite (buildKeyMap_absent keys name Hout).
    split; [|split].
    + split; [intros [v Hv]; discriminate | intros Hin; contradiction].
    + intros v. discriminate.
    + intros e [= <-]. reflexivity.
Qed.

(** X10. [getValueFromKey], the linear search: it returns the value of the
    first key that carries the name, whatever follows that key, and throws
    "Key not found" with the name when no key carries it. *)
Theorem linear_first_wins (pre post : list Key) (k : Key) :
  getName k ∉ names pre ->
  Linear.getValueFromKey (pre ++ k :: post) (getName k) = Ok (getValue k)
  /\ (forall name,
        name ∉ names (pre ++ k :: post) ->
        Linear.getValueFromKey (pre ++ k :: post) name
        = Throw (KeyNotFoundException name)).
Proof.
  intros Hpre. split.
  - apply getValueFromKey_first. exact Hpre.
  - intros name Hname. apply getValueFromKey_absent. exact Hname.
Qed.

Lemma linear_first_wins_witness :
  Linear.getValueFromKey
    [mkKey "b" (VBool true); mkKey "a" (VInt 1); mkKey "a" (VInt 2)] "a"
  = Ok (VInt 1).
Proof.
  apply (linear_first_wins [mkKey "b" (VBool true)] [mkKey "a" (VInt 2)]
           (mkKey "a" (VInt 1))).
  unfold names. simpl. apply not_elem_of_cons.
  split; [discriminate | apply not_elem_of_nil].
Defined.

(** X11. The order of the keys does not matter when their names are
    pairwise distinct: a permuted record gives the same outcome, in the
    hash-map unit and in the linear one. *)
Theorem parse_permutation (condition : FilterCondition) (keys keys' : list Key) :
  keys ≡ₚ keys' -> NoDup (names keys) ->
  Hashed.parse condition keys = Hashed.parse condition keys'
  /\ Linear.parse condition keys = Linear.parse condition keys'.
Proof.
  intros Hperm Hnd.
  assert (Hnd' : NoDup (names keys')).
  { unfold names in *. rewrite <- Hperm. exact Hnd. }
  assert (H : Hashed.parse condition keys = Hashed.parse condition keys').
  { unfold Hashed.parse.
    rewrite (buildKeyMap_Permutation keys keys' Hperm Hnd). reflexivity. }
  split; [exact H|].
  unfold Linear.parse.
  rewrite (loop_agree keys _ true Hnd), (loop_agree keys' _ true Hnd').
  exact H.
Qed.

Lemma parse_permutation_witness :
  Hashed.parse
    (mkCondition [mkSub (Unary (mkUnary GREATER_THAN "a" (VInt 10))) NONE])
    [mkKey "a" (VInt 15); mkKey "b" (VInt 0)]
  = Hashed.parse
      (mkCondition [mkSub (Unary (mkUnary GREATER_THAN "a" (VInt 10))) NONE])
      [mkKey "b" (VInt 0); mkKey "a" (VInt 15)].
Proof.
  apply (parse_permutation
           (mkCondition
              [mkSub (Unary (mkUnary GREATER_THAN "a" (VInt 10))) NONE])
           [mkKey "a" (VInt 15); mkKey "b" (VInt 0)]
           [mkKey "b" (VInt 0); mkKey "a" (VInt 15)]).
  - apply perm_swap.
  - unfold names. simpl. apply NoDup_cons. split.
    + apply not_elem_of_cons. split; [discriminate | apply not_elem_of_nil].
    + apply NoDup_singleton.
Defined.

(** X12. A key whose name the condition does not refer to has no effect:
    the outcome is the same with the key removed, and the same after its
    value is replaced. *)
Theorem unreferenced_key_irrelevant (condition : FilterCondition)
    (pre post : list Key) (k : Key) :
  getName k ∉ referenced condition ->
  Hashed.parse condition (pre ++ k :: post)
  = Hashed.parse condition (pre ++ post)
  /\ forall v,
       Hashed.parse condition (pre ++ setValue k v :: post)
       = Hashed.parse condition (pre ++ k :: post).
Proof.
  intros Hun.
  assert (H : forall k' : Key, getName k' = getName k ->
            Hashed.parse condition (pre ++ k' :: post)
            = Hashed.parse condition (pre ++ post)).
  { intros k' Hk'. unfold Hashed.parse. destruct condition as [subs].
    cbn [sub_expressions]. apply loop_ext. intros name Hin.
    apply buildKeyMap_remove_other. intros ->.
    rewrite Hk' in Hin. contradiction. }
  split.
  - apply H. reflexivity.
  - intros v. rewrite (H (setValue k v)) by reflexivity.
    rewrite (H k) by reflexivity. reflexivity.
Qed.

Lemma unreferenced_key_irrelevant_witness :
  Hashed.parse
    (mkCondition [mkSub (Unary (mkUnary GREATER_THAN "a" (VInt 10))) NONE])
    [mkKey "a" (VInt 15); mkKey "b" (VString "x")]
  = Hashed.parse
      (mkCondition [mkSub (Unary (mkUnary GREATER_THAN "a" (VInt 10))) NONE])
      [mkKey "a" (VInt 15)].
Proof.
  apply (proj1 (unreferenced_key_irrelevant
                  (mkCondition
                     [mkSub (Unary (mkUnary GREATER_THAN "a" (VInt 10))) NONE])
                  [mkKey "a" (VInt 15)] [] (mkKey "b" (VString "x"))
                  ltac:(unfold referenced; simpl; apply not_elem_of_cons;
                        split; [discriminate | apply not_elem_of_nil]))).
Defined.

(** X13. In the hash-map unit a key that a later key of the same name
    shadows is dead: removing it leaves the outcome of every condition
    unchanged. *)
Theorem shadowed_key_dead (condition : FilterCondition)
    (pre post : list Key) (k : Key) :
  getName k ∈ names post ->
  Hashed.parse condition (pre ++ k :: post)
  = Hashed.parse condition (pre ++ post).
Proof.
  intros Hin. unfold Hashed.parse.
  rewrite (buildKeyMap_remove_shadowed pre k post Hin). reflexivity.
Qed.

Lemma shadowed_key_dead_witness :
  Hashed.parse
    (mkCondition [mkSub (Unary (mkUnary EQUAL "a" (VInt 2))) NONE])
    [mkKey "a" (VString "old"); mkKey "a" (VInt 2)]
  = Hashed.parse
      (mkCondition [mkSub (Unary (mkUnary EQUAL "a" (VInt 2))) NONE])
      [mkKey "a" (VInt 2)].
Proof.
  apply (shadowed_key_dead
           (mkCondition [mkSub (Unary (mkUnary EQUAL "a" (VInt 2))) NONE])
           [] [mkKey "a" (VInt 2)] (mkKey "a" (VString "old"))).
  unfold names. simpl. left.
Defined.

(** ** Further properties: the fold and its exceptions *)

Lemma arithmetic_exception (left right : ValueType) (op : ArithmeticOperations)
    (e : ParseException) :
  evaluateArithmetic left op right = Throw e ->
  e = ArithmeticRequiresNumeric
  \/ (e = DivisionByZeroException /\ op = DIVIDE).
Proof.
  destruct left as [l | l | l | l], right as [r | r | r | r], op; simpl;
    try discriminate; try (intros [= <-]; left; reflexivity);
    repeat match goal with
           | |- context [if ?c then _ else _] => destruct c
           end;
    try discriminate; intros [= <-]; right; split; reflexivity.
Qed.

Lemma comparison_exception (left right : ValueType) (op : ComparisonOperations)
    (e : ParseException) :
  Hashed.evaluateComparison left op right = Throw e ->
  e = ComparisonRequiresSameType \/ e = UnsupportedComparisonForBoolean.
Proof.
  destruct left, right, op; unfold Hashed.evaluateComparison, Hashed.compare;
    simpl; intros [= <-]; auto.
Qed.

Lemma resolver_exception (keyMap : gmap string ValueType) (name : string)
    (e : ParseException) :
  Hashed.getValueFromKeyMap keyMap name = Throw e ->
  e = KeyNotFoundException name /\ keyMap !! name = None.
Proof.
  unfold Hashed.getValueFromKeyMap.
  destruct (keyMap !! name); [discriminate|]. intros [= <-]. split; reflexivity.
Qed.

Lemma buildKeyMap_None (keys : list Key) (name : string) :
  Hashed.buildKeyMap keys !! name = None -> name ∉ names keys.
Proof.
  intros Hnone Hin.
  destruct (last_key_exists keys name Hin) as (pre & k & post & -> & <- & Hpost).
  rewrite (buildKeyMap_last pre k post Hpost) in Hnone. discriminate.
Qed.

(** The exceptions of one sub-expression. *)
Lemma evaluateExpression_exception (keyMap : gmap string ValueType)
    (e : Expression) (x : ParseException) :
  Hashed.evaluateExpression keyMap e = Throw x ->
  (exists name, x = KeyNotFoundException name
                /\ name ∈ referenced_by e /\ keyMap !! name = None)
  \/ x = ArithmeticRequiresNumeric \/ x = DivisionByZeroException
  \/ x = ComparisonRequiresSameType \/ x = UnsupportedComparisonForBoolean.
Proof.
  destruct e as [u | b]; simpl.
  - destruct (Hashed.getValueFromKeyMap keyMap (u_key u)) as [v|x'|] eqn:Hv;
      simpl; [| |discriminate].
    + intros H. apply comparison_exception in H. tauto.
    + intros [= <-]. apply resolver_exception in Hv as [-> Hnone].
      left. exists (u_key u). repeat split; [left | exact Hnone].
  - destruct (Hashed.getValueFromKeyMap keyMap (left_key b)) as [lv|x'|] eqn:Hl;
      simpl; [| |discriminate].
    2:{ intros [= <-]. apply resolver_exception in Hl as [-> Hnone].
        left. exists (left_key b). repeat split; [left | exact Hnone]. }
    destruct (Hashed.getValueFromKeyMap keyMap (right_key b)) as [rv|x'|] eqn:Hr;
      simpl; [| |discriminate].
    2:{ intros [= <-]. apply resolver_exception in Hr as [-> Hnone].
        left. exists (right_key b). repeat split; [right; left | exact Hnone]. }
    destruct (evaluateArithmetic lv (arith_op b) rv) as [v|x'|] eqn:Ha; simpl;
      [| |discriminate].
    + intros H. apply comparison_exception in H. tauto.
    + intros [= <-]. apply arithmetic_exception in Ha. tauto.
Qed.

(** X14. Where an exception of a call comes from.  "Key not found" names a
    key the condition refers to and the record does not carry;
    "Unsupported logical operation" needs a sub-expression tagged [NOT]; the
    only other exceptions are the two of the arithmetic and the two of the
    comparison. *)
Theorem parse_exception_provenance (condition : FilterCondition)
    (keys : list Key) (e : ParseException) :
  Hashed.parse condition keys = Throw e ->
  (exists name, e = KeyNotFoundException name
                /\ name ∈ referenced condition /\ name ∉ names keys)
  \/ (e = UnsupportedLogicalOperation /\ NOT ∈ tags (sub_expressions condition))
  \/ e = ArithmeticRequiresNumeric \/ e = DivisionByZeroException
  \/ e = ComparisonRequiresSameType \/ e = UnsupportedComparisonForBoolean.
Proof.
  unfold Hashed.parse. destruct condition as [subs].
  cbn [sub_expressions]. generalize true as result.
  induction subs as [|subExpr rest IH]; intros result.
  - discriminate.
  - assert (Href : referenced (mkCondition (subExpr :: rest))
                   = referenced_by (expr subExpr)
                     ++ referenced (mkCondition rest))
      by reflexivity.
    rewrite Href. unfold tags. rewrite fmap_cons. cbn [Hashed.loop].
    destruct (Hashed.evaluateExpression _ (expr subExpr)) as [b|x|] eqn:Hb;
      cbn [mbind Result_bind].
    + destruct (prev_logical_op subExpr) eqn:Hop;
        cbn [Hashed.combine mbind Result_bind];
        try (intros H; apply IH in H;
             destruct H as [(name & -> & Hin & Hout) | [[-> Hnot] | H]];
             [ left; exists name; repeat split;
                 [apply elem_of_app; right; exact Hin | exact Hout]
             | right; left; split; [reflexivity | right; exact Hnot]
             | right; right; exact H ]).
      intros [= <-]. right. left. split; [reflexivity | left].
    + intros [= <-]. apply evaluateExpression_exception in Hb.
      destruct Hb as [(name & -> & Hin & Hnone) | H].
      * left. exists name. repeat split.
        -- apply elem_of_app. left. exact Hin.
        -- apply buildKeyMap_None. exact Hnone.
      * right. right. exact H.
    + discriminate.
Qed.

Lemma parse_exception_provenance_witness :
  (exists name, KeyNotFoundException "missing" = KeyNotFoundException name
                /\ name ∈ referenced
                     (single (Unary (mkUnary EQUAL "missing" (VInt 1))) NONE)
                /\ name ∉ names [mkKey "present" (VInt 1)])
  \/ (KeyNotFoundException "missing" = UnsupportedLogicalOperation
      /\ NOT ∈ tags (sub_expressions
                       (single (Unary (mkUnary EQUAL "missing" (VInt 1))) NONE)))
  \/ KeyNotFoundException "missing" = ArithmeticRequiresNumeric
  \/ KeyNotFoundException "missing" = DivisionByZeroException
  \/ KeyNotFoundException "missing" = ComparisonRequiresSameType
  \/ KeyNotFoundException "missing" = UnsupportedComparisonForBoolean.
Proof.
  apply (parse_exception_provenance
           (single (Unary (mkUnary EQUAL "missing" (VInt 1))) NONE)
           [mkKey "present" (VInt 1)] (KeyNotFoundException "missing")).
  reflexivity.
Defined.

(** X15. A call returns a boolean exactly when every sub-expression of the
    condition evaluates to a boolean on the record and none is tagged
    [NOT]. *)
Theorem parse_returns_iff (condition : FilterCondition) (keys : list Key) :
  (exists b, Hashed.parse condition keys = Ok b)
  <-> (forall subExpr, subExpr ∈ sub_expressions condition ->
         (exists b,
            Hashed.evaluateExpression (Hashed.buildKeyMap keys) (expr subExpr)
            = Ok b)
         /\ prev_logical_op subExpr <> NOT).
Proof.
  unfold Hashed.parse. destruct condition as [subs]. cbn [sub_expressions].
  generalize true as result.
  induction subs as [|subExpr rest IH]; intros result; simpl.
  - split; [intros _ se Hse; inversion Hse | intros _; eexists; reflexivity].
  - split.
    + intros [b Hb] se Hse.
      destruct (Hashed.evaluateExpression _ (expr subExpr)) as [sb| |] eqn:Hsb;
        simpl in Hb; [|discriminate..].
      destruct (Hashed.combine result (prev_logical_op subExpr) sb)
        as [acc| |] eqn:Hacc; simpl in Hb; [|discriminate..].
      apply elem_of_cons in Hse as [-> | Hse].
      * split; [eexists; exact Hsb|]. intros Hnot. rewrite Hnot in Hacc.
        discriminate.
      * apply (proj1 (IH acc)); [eexists; exact Hb | exact Hse].
    + intros Hall.
      destruct (Hall subExpr ltac:(left)) as [[sb Hsb] Hop].
      rewrite Hsb. simpl.
      assert (Hacc : exists acc,
                Hashed.combine result (prev_logical_op subExpr) sb = Ok acc)
        by (destruct (prev_logical_op subExpr); try contradiction;
            eexists; reflexivity).
      destruct Hacc as [acc ->]. simpl.
      apply (proj2 (IH acc)). intros se Hse. apply Hall. right. exact Hse.
Qed.

(** ** Further properties: chains of one logical operator *)

Section Chains.

Variable keyMap : gmap string ValueType.

Lemma loop_all_AND (subs : list SubExpression) (bs : list bool) (result : bool) :
  Forall (fun subExpr => prev_logical_op subExpr = AND) subs ->
  evaluate_to keyMap subs bs ->
  Hashed.loop keyMap subs result = Ok (result && forallb id bs).
Proof.
  intros Htags Hbs. revert result.
  induction Hbs as [|subExpr b rest bs' Hb Hrest IH]; intros result; simpl.
  - rewrite andb_true_r. reflexivity.
  - apply Forall_cons in Htags as [Htag Htags].
    rewrite Hb, Htag. simpl. rewrite (IH Htags). unfold id at 2.
    rewrite andb_assoc. reflexivity.
Qed.

Lemma loop_all_OR (subs : list SubExpression) (bs : list bool) (result : bool) :
  Forall (fun subExpr => prev_logical_op subExpr = OR) subs ->
  evaluate_to keyMap subs bs ->
  Hashed.loop keyMap subs result = Ok (result || existsb id bs).
Proof.
  intros Htags Hbs. revert result.
  induction Hbs as [|subExpr b rest bs' Hb Hrest IH]; intros result; simpl.
  - rewrite orb_false_r. reflexivity.
  - apply Forall_cons in Htags as [Htag Htags].
    rewrite Hb, Htag. simpl. rewrite (IH Htags). unfold id at 2.
    rewrite orb_assoc. reflexivity.
Qed.

End Chains.

(** X16. A chain of [AND]: when the first sub-expression is tagged [NONE]
    or [AND], every later one [AND], and they evaluate to the booleans [bs],
    the call returns the conjunction of [bs]. *)
Theorem and_chain (condition : FilterCondition) (keys : list Key)
    (first : SubExpression) (rest : list SubExpression) (bs : list bool) :
  sub_expressions condition = first :: rest ->
  prev_logical_op first = NONE \/ prev_logical_op first = AND ->
  Forall (fun subExpr => prev_logical_op subExpr = AND) rest ->
  evaluate_to (Hashed.buildKeyMap keys) (first :: rest) bs ->
  Hashed.parse condition keys = Ok (forallb id bs).
Proof.
  intros Hsubs Hfirst Hrest Hbs. unfold Hashed.parse. rewrite Hsubs.
  inversion Hbs as [|? b ? bs' Hb Hbs' ]; subst.
  cbn [Hashed.loop]. rewrite Hb. cbn [mbind Result_bind].
  assert (Hacc : Hashed.combine true (prev_logical_op first) b = Ok b)
    by (destruct Hfirst as [-> | ->]; reflexivity).
  rewrite Hacc. cbn [mbind Result_bind].
  rewrite (loop_all_AND _ rest bs' b Hrest Hbs'). reflexivity.
Qed.

Lemma and_chain_witness :
  Hashed.parse
    (mkCondition [mkSub (Unary (mkUnary GREATER_THAN "a" (VInt 10))) NONE;
                  mkSub (Unary (mkUnary LESS_THAN "b" (VInt 20))) AND])
    [mkKey "a" (VInt 15); mkKey "b" (VInt 25)]
  = Ok (forallb id [true; false]).
Proof.
  apply (and_chain
           (mkCondition
              [mkSub (Unary (mkUnary GREATER_THAN "a" (VInt 10))) NONE;
               mkSub (Unary (mkUnary LESS_THAN "b" (VInt 20))) AND])
           [mkKey "a" (VInt 15); mkKey "b" (VInt 25)]
           (mkSub (Unary (mkUnary GREATER_THAN "a" (VInt 10))) NONE)
           [mkSub (Unary (mkUnary LESS_THAN "b" (VInt 20))) AND]
           [true; false]).
  - reflexivity.
  - left. reflexivity.
  - repeat constructor.
  - repeat constructor.
Defined.

(** X17. A chain of [OR]: when the first sub-expression is tagged [NONE],
    every later one [OR], and they evaluate to the booleans [bs], the call
    returns the disjunction of [bs].  When the first one is tagged [OR] as
    well, the call returns [true] whatever [bs] holds: the accumulator
    starts from [true]. *)
Theorem or_chain (condition : FilterCondition) (keys : list Key)
    (first : SubExpression) (rest : list SubExpression) (bs : list bool) :
  sub_expressions condition = first :: rest ->
  Forall (fun subExpr => prev_logical_op subExpr = OR) rest ->
  evaluate_to (Hashed.buildKeyMap keys) (first :: rest) bs ->
  (prev_logical_op first = NONE ->
   Hashed.parse condition keys = Ok (existsb id bs))
  /\ (prev_logical_op first = OR ->
      Hashed.parse condition keys = Ok true).
Proof.
  intros Hsubs Hrest Hbs. unfold Hashed.parse. rewrite Hsubs.
  inversion Hbs as [|? b ? bs' Hb Hbs' ]; subst.
  cbn [Hashed.loop]. rewrite Hb. cbn [mbind Result_bind].
  split; intros ->; cbn [Hashed.combine mbind Result_bind orb];
    rewrite (loop_all_OR _ rest bs' _ Hrest Hbs'); reflexivity.
Qed.

Lemma or_chain_witness :
  Hashed.parse
    (mkCondition [mkSub (Unary (mkUnary GREATER_THAN "a" (VInt 10))) OR;
                  mkSub (Unary (mkUnary LESS_THAN "b" (VInt 20))) OR])
    [mkKey "a" (VInt 5); mkKey "b" (VInt 25)]
  = Ok true.
Proof.
  apply (proj2 (or_chain
           (mkCondition
              [mkSub (Unary (mkUnary GREATER_THAN "a" (VInt 10))) OR;
               mkSub (Unary (mkUnary LESS_THAN "b" (VInt 20))) OR])
           [mkKey "a" (VInt 5); mkKey "b" (VInt 25)]
           (mkSub (Unary (mkUnary GREATER_THAN "a" (VInt 10))) OR)
           [mkSub (Unary (mkUnary LESS_THAN "b" (VInt 20))) OR]
           [false; false]
           eq_refl ltac:(repeat constructor) ltac:(repeat constructor))).
  reflexivity.
Defined.

(** [evaluateLogical] against the switch of the loop: on [AND] and
    [OR] the two agree; [NONE], which the loop takes, and [NOT] make
    [evaluateLogical] throw "Unsupported logical operation". *)
Theorem evaluateLogical_combine (left right : bool) (op : LogicalOperations) :
  (op = AND \/ op = OR ->
   evaluateLogical left op right = Hashed.combine left op right
   /\ evaluateLogical left op right = Linear.combine left op right)
  /\ (op = NONE \/ op = NOT ->
      evaluateLogical left op right = Throw UnsupportedLogicalOperation)
  /\ Hashed.combine left NONE right = Ok right.
Proof.
  split; [|split].
  - intros [-> | ->]; split; reflexivity.
  - intros [-> | ->]; reflexivity.
  - reflexivity.
Qed.

Lemma evaluateLogical_combine_witness :
  evaluateLogical true OR false = Hashed.combine true OR false
  /\ evaluateLogical true NONE false = Throw UnsupportedLogicalOperation.
Proof.
  split.
  - apply (proj1 (evaluateLogical_combine true false OR)). right. reflexivity.
  - apply (proj1 (proj2 (evaluateLogical_combine true false NONE))).
    left. reflexivity.
Defined.

(** ** Further properties: the benchmark builders *)

Lemma fmap_seq_const {A : Type} (f : nat -> A) (x : A) (start len : nat) :
  (forall i : nat, (start <= i < start + len)%nat -> f i = x) ->
  f <$> List.seq start len = replicate len x.
Proof.
  revert start. induction len as [|len IH]; intros start Hf; simpl.
  - reflexivity.
  - f_equal.
    + apply Hf. lia.
    + apply IH. intros i Hi. apply Hf. lia.
Qed.

(** The condition of the chain benchmarks: [AND] on every copy but the
    last. *)
Lemma chain_shape (e : Expression) (n : nat) :
  sub_expressions (chain e (S n))
  = replicate n (mkSub e AND) ++ [mkSub e NONE].
Proof.
  unfold chain. cbn [sub_expressions].
  rewrite List.seq_S, fmap_app. f_equal.
  - apply fmap_seq_const. intros i Hi.
    replace (S n - 1)%nat with n by lia.
    destruct (Nat.eqb_spec i n); [lia | reflexivity..].
  - simpl. replace (n - 0)%nat with n by lia.
    rewrite Nat.eqb_refl. reflexivity.
Qed.

Lemma loop_chain (keyMap : gmap string ValueType) (e : Expression) (n : nat)
    (result : bool) :
  Hashed.loop keyMap (replicate n (mkSub e AND) ++ [mkSub e NONE]) result
  = Hashed.evaluateExpression keyMap e.
Proof.
  revert result. induction n as [|n IH]; intros result; simpl.
  - destruct (Hashed.evaluateExpression keyMap e); reflexivity.
  - destruct (Hashed.evaluateExpression keyMap e) as [b|x|] eqn:He; simpl.
    + rewrite IH. reflexivity.
    + reflexivity.
    + reflexivity.
Qed.

(** X18. The conditions built by [BM_BinaryArithAndChain] and
    [BM_StringCompareChain] tag the last copy [NONE], so for every positive
    chain length and every record the call gives what the one expression
    gives alone, exception included; the length has no effect.  With length
    zero the condition is empty and the call returns [true]. *)
Theorem chain_is_single (e : Expression) (chain_len : nat) (keys : list Key) :
  Hashed.parse (chain e chain_len) keys
  = match chain_len with
    | 0%nat => Ok true
    | S _ => Hashed.evaluateExpression (Hashed.buildKeyMap keys) e
    end.
Proof.
  destruct chain_len as [|n].
  - reflexivity.
  - unfold Hashed.parse. rewrite chain_shape. apply loop_chain.
Qed.

Lemma key_name_inj (i j : nat) :
  "k" +:+ pretty i = "k" +:+ pretty j -> i = j.
Proof.
  simpl. intros [= H]. apply pretty_nat_inj. exact H.
Qed.

Lemma MakeSequentialIntKeys_names (n : nat) :
  names (MakeSequentialIntKeys n)
  = (fun i : nat => "k" +:+ pretty i) <$> List.seq 0%nat n.
Proof.
  unfold names, MakeSequentialIntKeys.
  rewrite <- list_fmap_compose. reflexivity.
Qed.

Lemma MakeMixedKeys_names (n : nat) :
  names (MakeMixedKeys n) = names (MakeSequentialIntKeys n).
Proof.
  rewrite MakeSequentialIntKeys_names. unfold names, MakeMixedKeys.
  rewrite <- list_fmap_compose. apply list_fmap_ext. intros _ i _.
  unfold compose. destruct (i mod 4)%nat as [|[|[|m]]]; reflexivity.
Qed.

Lemma sequential_names_NoDup (n : nat) :
  NoDup (names (MakeSequentialIntKeys n)).
Proof.
  rewrite MakeSequentialIntKeys_names. apply NoDup_fmap_2_strong.
  - intros i j _ _. apply key_name_inj.
  - apply NoDup_seq.
Qed.

Lemma sequential_name_elem (n i : nat) :
  "k" +:+ pretty i ∈ names (MakeSequentialIntKeys n) <-> (i < n)%nat.
Proof.
  rewrite MakeSequentialIntKeys_names, list_elem_of_fmap. split.
  - intros (j & Hj & Hin). apply key_name_inj in Hj as ->.
    apply elem_of_seq in Hin. lia.
  - intros Hi. exists i. split; [reflexivity|]. apply elem_of_seq. lia.
Qed.

(** X19. [MakeSequentialIntKeys(n)] builds [n] keys with pairwise distinct
    names; for [n] within the signed range, looking up ["k" + to_string(i)]
    gives the integer [i] when [i < n] and throws "Key not found" otherwise,
    with either resolver. *)
Theorem sequential_keys (n i : nat) :
  Z.of_nat n <= 2 ^ 63 ->
  length (MakeSequentialIntKeys n) = n
  /\ NoDup (names (MakeSequentialIntKeys n))
  /\ Hashed.getValueFromKeyMap (Hashed.buildKeyMap (MakeSequentialIntKeys n))
       ("k" +:+ pretty i)
     = (if (i <? n)%nat then Ok (VInt (Z.of_nat i))
        else Throw (KeyNotFoundException ("k" +:+ pretty i)))
  /\ Linear.getValueFromKey (MakeSequentialIntKeys n) ("k" +:+ pretty i)
     = Hashed.getValueFromKeyMap (Hashed.buildKeyMap (MakeSequentialIntKeys n))
         ("k" +:+ pretty i).
Proof.
  intros Hn. split; [|split; [|split]].
  - unfold MakeSequentialIntKeys. rewrite length_fmap. apply length_seq.
  - apply sequential_names_NoDup.
  - unfold Hashed.getValueFromKeyMap.
    destruct (Nat.ltb_spec i n) as [Hi | Hi].
    + assert (Hk : mkKey ("k" +:+ pretty i) (VInt (wrap64 (Z.of_nat i)))
                   ∈ MakeSequentialIntKeys n).
      { unfold MakeSequentialIntKeys.
        apply (list_elem_of_fmap_2
                 (fun i : nat =>
                    mkKey ("k" +:+ pretty i) (VInt (wrap64 (Z.of_nat i))))).
        apply elem_of_seq. lia. }
      pose proof (buildKeyMap_elem _ _ (sequential_names_NoDup n) Hk) as Hv.
      cbn [getName getValue] in Hv. rewrite Hv.
      rewrite wrap64_id; [reflexivity|].
      unfold in_int64, int64_min, int64_max. lia.
    + rewrite buildKeyMap_absent; [reflexivity|].
      rewrite sequential_name_elem. lia.
  - apply resolvers_agree. apply sequential_names_NoDup.
Qed.

Lemma sequential_keys_witness :
  Hashed.getValueFromKeyMap (Hashed.buildKeyMap (MakeSequentialIntKeys 12))
    ("k" +:+ pretty 10%nat)
  = Ok (VInt 10).
Proof.
  apply (proj1 (proj2 (proj2 (sequential_keys 12 10 ltac:(simpl; lia))))).
Defined.

(** X20. [MakeMixedKeys(n)] gives the keys the names of
    [MakeSequentialIntKeys(n)], hence pairwise distinct, and cycles through
    the four alternatives by [i % 4]; its boolean keys all hold [false],
    since [(i % 2) == 0] is only computed where [i % 4] is 3. *)
Theorem mixed_keys (n : nat) :
  names (MakeMixedKeys n) = names (MakeSequentialIntKeys n)
  /\ NoDup (names (MakeMixedKeys n))
  /\ (forall (i : nat) (k : Key),
        MakeMixedKeys n !! i = Some k ->
        getName k = "k" +:+ pretty i
        /\ index (getValue k) = (i mod 4)%nat)
  /\ (forall (k : Key) (b : bool),
        k ∈ MakeMixedKeys n -> getValue k = VBool b -> b = false).
Proof.
  split; [apply MakeMixedKeys_names|]. split; [|split].
  - rewrite MakeMixedKeys_names. apply sequential_names_NoDup.
  - intros i k Hk. unfold MakeMixedKeys in Hk.
    rewrite list_lookup_fmap in Hk.
    apply fmap_Some in Hk as (j & Hj & ->).
    apply lookup_seq in Hj as [-> _]. change (0 + i)%nat with i.
    assert (Hlt : (i mod 4 < 4)%nat) by (apply Nat.mod_upper_bound; lia).
    destruct (i mod 4)%nat as [|[|[|[|m]]]];
      try (split; reflexivity); lia.
  - intros k b Hk. unfold MakeMixedKeys in Hk.
    apply list_elem_of_fmap in Hk as (i & -> & _).
    assert (Hlt : (i mod 4 < 4)%nat) by (apply Nat.mod_upper_bound; lia).
    assert (Hmod : (i mod 4 = i mod 2 + 2 * ((i / 2) mod 2))%nat)
      by (apply (Nat.Div0.mod_mul_r i 2 2)).
    assert (Hlt2 : (i mod 2 < 2)%nat) by (apply Nat.mod_upper_bound; lia).
    assert (Hlt3 : ((i / 2) mod 2 < 2)%nat) by (apply Nat.mod_upper_bound; lia).
    destruct (i mod 4)%nat as [|[|[|[|m]]]] eqn:Hi; cbn [getValue];
      try discriminate; [|lia].
    intros Hb. replace b with (Nat.eqb (i mod 2) 0) by congruence.
    apply Nat.eqb_neq. lia.
Qed.

(** ** Further properties: the conversion of an integer to [double] *)

Section Conversion.

(** [iter_pos f n] applies [f] as many times as [n] says: a property that
    each application carries one step further is carried [n] steps. *)
Lemma iter_pos_steps {A : Type} (f : A -> A) (P : nat -> A -> Prop) :
  (forall k x, P k x -> P (S k) (f x)) ->
  forall (n : positive) (k : nat) (x : A),
    P k x -> P (k + Pos.to_nat n)%nat (SpecFloat.iter_pos f n x).
Proof.
  intros Hstep. induction n as [n IH | n IH |]; intros k x Hx; simpl.
  - rewrite Pos2Nat.inj_xI.
    replace (k + S (2 * Pos.to_nat n))%nat
      with (S k + Pos.to_nat n + Pos.to_nat n)%nat by lia.
    apply IH, IH, Hstep, Hx.
  - rewrite Pos2Nat.inj_xO.
    replace (k + 2 * Pos.to_nat n)%nat
      with (k + Pos.to_nat n + Pos.to_nat n)%nat by lia.
    apply IH, IH, Hx.
  - replace (k + Pos.to_nat 1)%nat with (S k) by lia. apply Hstep, Hx.
Qed.

Lemma shr_1_shifted (d k : nat) (mrs : shr_record) :
  shifted d k mrs -> shifted d (S k) (shr_1 mrs).
Proof.
  unfold shifted. intros H Hk.
  destruct (H ltac:(lia)) as (p & Hp & Hd).
  destruct mrs as [m r s]. simpl in Hp. subst m.
  destruct p as [p | p |]; simpl in *.
  - exists p. split; [reflexivity|]. rewrite Pos2Nat.inj_succ in Hd. lia.
  - exists p. split; [reflexivity|]. rewrite Pos2Nat.inj_succ in Hd. lia.
  - change (Pos.to_nat 1) with 1%nat in Hd. lia.
Qed.

(** [shr] by fewer positions than the mantissa has digits leaves a positive
    mantissa and does not lower the exponent. *)
Lemma shr_positive (m : positive) (r s : bool) (e n : Z) :
  n < Zpos (digits2_pos m) ->
  exists p e',
    shr (Build_shr_record (Zpos m) r s) e n = (p, e')
    /\ (exists q, shr_m p = Zpos q) /\ e <= e'.
Proof.
  intros Hn. destruct n as [|n|n]; simpl.
  - eexists _, _. split; [reflexivity|]. split; [eexists; reflexivity | lia].
  - eexists _, _. split; [reflexivity|]. split; [|lia].
    assert (H : shifted (Pos.to_nat (digits2_pos m)) (0 + Pos.to_nat n)
                  (SpecFloat.iter_pos shr_1 n (Build_shr_record (Zpos m) r s))).
    { apply (iter_pos_steps shr_1 (shifted (Pos.to_nat (digits2_pos m)))).
      - intros k x. apply shr_1_shifted.
      - intros _. exists m. split; [reflexivity | lia]. }
    destruct (H ltac:(lia)) as (q & Hq & _). exists q. exact Hq.
  - eexists _, _. split; [reflexivity|]. split; [eexists; reflexivity | lia].
Qed.

Lemma shr_fexp_positive (m : positive) (e : Z) (l : location) :
  -1074 <= e ->
  exists p e',
    shr_fexp prec64 emax64 (Zpos m) e l = (p, e')
    /\ (exists q, shr_m p = Zpos q) /\ e <= e'.
Proof.
  intros He. unfold shr_fexp.
  assert (Hn : fexp prec64 emax64 (Zdigits2 (Zpos m) + e) - e
               < Zpos (digits2_pos m)).
  { unfold fexp, emin, prec64, emax64. simpl Zdigits2. lia. }
  destruct l as [|[]]; simpl shr_record_of_loc; apply shr_positive; exact Hn.
Qed.

Lemma round_nearest_even_positive (m : positive) (l : location) :
  exists q, round_nearest_even (Zpos m) l = Zpos q.
Proof.
  destruct l as [|[]]; simpl; try (eexists; reflexivity).
  destruct m; eexists; reflexivity.
Qed.

(** Rounding a positive mantissa whose exponent is above the least one
    never gives a zero. *)
Lemma binary_round_aux_nonzero (sx : bool) (m : positive) (e : Z)
    (l : location) (s : bool) :
  -1074 <= e ->
  binary_round_aux prec64 emax64 sx (Zpos m) e l <> S754_zero s.
Proof.
  intros He. unfold binary_round_aux.
  destruct (shr_fexp_positive m e l He) as (p1 & e1 & -> & [q1 Hq1] & He1).
  rewrite Hq1.
  destruct (round_nearest_even_positive q1 (loc_of_shr_record p1)) as [q2 ->].
  destruct (shr_fexp_positive q2 e1 loc_Exact ltac:(lia))
    as (p3 & e3 & -> & [q3 Hq3] & He3).
  rewrite Hq3. destruct (e3 <=? emax64 - prec64); discriminate.
Qed.

Lemma binary_round_nonzero (sx : bool) (m : positive) (s : bool) :
  binary_round prec64 emax64 sx m 0 <> S754_zero s.
Proof.
  unfold binary_round.
  destruct (shl_align m 0 (fexp prec64 emax64 (Zpos (digits2_pos m) + 0)))
    as [mz ez] eqn:Hal.
  apply binary_round_aux_nonzero.
  unfold shl_align in Hal.
  assert (Hf : fexp prec64 emax64 (Zpos (digits2_pos m) + 0) >= -52).
  { unfold fexp, emin, prec64, emax64. lia. }
  destruct (fexp prec64 emax64 (Zpos (digits2_pos m) + 0) - 0) eqn:Hd;
    injection Hal as <- <-; lia.
Qed.

(** The conversion gives a zero only for the integer zero. *)
Lemma double_of_int64_zero (z : Z) :
  deq (double_of_int64 z) dzero = (z =? 0).
Proof.
  destruct z as [|p|p]; [reflexivity| |];
    unfold double_of_int64, binary_normalize; simpl (_ =? _);
    [ pose proof (binary_round_nonzero false p) as H
    | pose proof (binary_round_nonzero true p) as H ];
    match goal with |- deq ?d _ = _ => destruct d as [s'| | |] eqn:Hd end;
    try reflexivity; try (destruct s; reflexivity);
    exfalso; apply (H s'); reflexivity.
Qed.

End Conversion.

(** X21. [evaluateArithmetic] returns a value exactly when both operands are
    numeric, it is not a [DIVIDE] by a zero (the integer [0] or a [0.0] of
    either sign), and it is not the integer division of [INT64_MIN] by [-1];
    a nonzero integer divisor never makes it throw, also when it is
    converted to [double].  Its exceptions are "Arithmetic operations
    require numeric types", for a non-numeric operand, and "Division by
    zero".  It crashes exactly on [INT64_MIN DIVIDE -1] between two
    integers, which no guard catches. *)
Theorem arithmetic_returns_iff (left right : ValueType)
    (op : ArithmeticOperations) :
  ((exists v, evaluateArithmetic left op right = Ok v)
   <-> is_numeric left && is_numeric right = true
       /\ is_divide op && is_zero right = false
       /\ is_divide op && divide_overflows left right = false)
  /\ (forall e, evaluateArithmetic left op right = Throw e ->
        (e = ArithmeticRequiresNumeric
         /\ is_numeric left && is_numeric right = false)
        \/ (e = DivisionByZeroException
            /\ op = DIVIDE /\ is_zero right = true))
  /\ (evaluateArithmetic left op right = Crash
      <-> op = DIVIDE /\ left = VInt int64_min /\ right = VInt (-1)).
Proof.
  destruct left as [l | l | l | l], right as [r | r | r | r];
    cbn [evaluateArithmetic is_numeric is_zero divide_overflows andb];
    try (split; [split | split];
         [ intros [v Hv]; discriminate
         | intros (H & _); discriminate
         | intros e [= <-]; left; split; reflexivity
         | split; [discriminate | intros (_ & Hl & Hr); discriminate] ]).
  - (* two integers *)
    destruct op; cbn [arith_int64 is_divide andb];
      try (split; [split | split];
           [ intros _; repeat split
           | intros _; eexists; reflexivity
           | intros e; discriminate
           | split; [discriminate | intros (Hop & _); discriminate] ]).
    destruct (Z.eqb_spec r 0) as [Hr0 | Hr0].
    + split; [split | split].
      * intros [v Hv]; discriminate.
      * intros (_ & H & _); discriminate.
      * intros e [= <-]. right. repeat split.
      * split; [discriminate|]. intros (_ & _ & [= Hr]). lia.
    + destruct (Z.eqb_spec l int64_min) as [Hl | Hl];
        destruct (Z.eqb_spec r (-1)) as [Hr | Hr]; cbn [andb];
        (split; [split | split]);
        try (intros [v Hv]; discriminate);
        try (intros (_ & _ & H); discriminate);
        try (intros _; repeat split; reflexivity);
        try (intros _; eexists; reflexivity);
        try (intros e; discriminate);
        try (split; [discriminate | intros (_ & [= Hl'] & [= Hr']); lia]).
      subst. split; [intros _; repeat split | reflexivity].
  - (* an integer and a double *)
    unfold arith_double.
    destruct op; cbn [is_divide andb];
      try (split; [split | split];
           [ intros _; repeat split
           | intros _; eexists; reflexivity
           | intros e; discriminate
           | split; [discriminate | intros (Hop & _); discriminate] ]).
    destruct (deq r dzero); (split; [split | split]);
      try (intros [v Hv]; discriminate);
      try (intros (_ & H & _); discriminate);
      try (intros _; repeat split; reflexivity);
      try (intros _; eexists; reflexivity);
      try (intros e; discriminate);
      try (intros e [= <-]; right; repeat split);
      split; try discriminate; intros (_ & _ & Hr); discriminate.
  - (* a double and an integer *)
    unfold arith_double. rewrite double_of_int64_zero.
    destruct op; cbn [is_divide andb];
      try (split; [split | split];
           [ intros _; repeat split
           | intros _; eexists; reflexivity
           | intros e; discriminate
           | split; [discriminate | intros (Hop & _); discriminate] ]).
    destruct (r =? 0); (split; [split | split]);
      try (intros [v Hv]; discriminate);
      try (intros (_ & H & _); discriminate);
      try (intros _; repeat split; reflexivity);
      try (intros _; eexists; reflexivity);
      try (intros e; discriminate);
      try (intros e [= <-]; right; repeat split);
      split; try discriminate; intros (_ & Hl & _); discriminate.
  - (* two doubles *)
    unfold arith_double.
    destruct op; cbn [is_divide andb];
      try (split; [split | split];
           [ intros _; repeat split
           | intros _; eexists; reflexivity
           | intros e; discriminate
           | split; [discriminate | intros (Hop & _); discriminate] ]).
    destruct (deq r dzero); (split; [split | split]);
      try (intros [v Hv]; discriminate);
      try (intros (_ & H & _); discriminate);
      try (intros _; repeat split; reflexivity);
      try (intros _; eexists; reflexivity);
      try (intros e; discriminate);
      try (intros e [= <-]; right; repeat split);
      split; try discriminate; intros (_ & Hl & _); discriminate.
Qed.

(** X22. [EQUAL] of a value with itself returns [true], except for a NaN,
    which is not equal to itself. *)
Theorem equal_reflexive (v : ValueType) :
  Hashed.evaluateComparison v EQUAL v = Ok (negb (is_nan v)).
Proof.
  destruct v as [x | x | x | x];
    unfold Hashed.evaluateComparison, Hashed.compare; simpl; f_equal.
  - apply Z.eqb_refl.
  - unfold deq, SFeqb. destruct x as [s | s | | s m e]; try reflexivity.
    + destruct s; reflexivity.
    + rewrite SFcompare_refl by discriminate. reflexivity.
  - apply Strings.String.eqb_refl.
  - destruct x; reflexivity.
Qed.

(** X23. Extending a condition by one sub-expression: the call on the longer
    condition runs the shorter one and, when that returns [acc], folds the
    new sub-expression into [acc] with its own tag.  Grouping is therefore
    to the left, without precedence of [AND] over [OR]. *)
Theorem parse_snoc (pre : list SubExpression) (subExpr : SubExpression)
    (keys : list Key) :
  Hashed.parse (mkCondition (pre ++ [subExpr])) keys
  = (acc ← Hashed.parse (mkCondition pre) keys;
     subResult ← Hashed.evaluateExpression (Hashed.buildKeyMap keys)
                   (expr subExpr);
     Hashed.combine acc (prev_logical_op subExpr) subResult).
Proof.
  unfold Hashed.parse. cbn [sub_expressions]. rewrite loop_app.
  destruct (Hashed.loop (Hashed.buildKeyMap keys) pre true) as [acc| |];
    [|reflexivity..].
  cbn [mbind Result_bind Hashed.loop].
  destruct (Hashed.evaluateExpression _ _) as [sb| |]; [|reflexivity..].
  cbn [mbind Result_bind]. apply bind_Ok_r.
Qed.

(** X24. Replacing the value of the last key that carries a name: resolving
    that name then gives the new value, and resolving any other name gives
    what it gave before. *)
Theorem setValue_resolve (pre post : list Key) (k : Key) (v : ValueType) :
  getName k ∉ names post ->
  Hashed.getValueFromKeyMap
    (Hashed.buildKeyMap (pre ++ setValue k v :: post)) (getName k) = Ok v
  /\ forall name, name <> getName k ->
       Hashed.getValueFromKeyMap
         (Hashed.buildKeyMap (pre ++ setValue k v :: post)) name
       = Hashed.getValueFromKeyMap
           (Hashed.buildKeyMap (pre ++ k :: post)) name.
Proof.
  intros Hpost. unfold Hashed.getValueFromKeyMap. split.
  - change (getName k) with (getName (setValue k v)) at 1.
    rewrite buildKeyMap_last by exact Hpost. reflexivity.
  - intros name Hne.
    rewrite (buildKeyMap_remove_other pre (setValue k v) post name)
      by exact Hne.
    rewrite (buildKeyMap_remove_other pre k post name) by exact Hne.
    reflexivity.
Qed.

Lemma setValue_resolve_witness :
  Hashed.getValueFromKeyMap
    (Hashed.buildKeyMap
       [mkKey "k0" (VInt 0); setValue (mkKey "k1" (VInt 1)) (VString "x")])
    "k1"
  = Ok (VString "x").
Proof.
  apply (proj1 (setValue_resolve [mkKey "k0" (VInt 0)] []
                  (mkKey "k1" (VInt 1)) (VString "x")
                  (not_elem_of_nil _))).
Defined.

(** X25. A binary sub-expression resolves its left key first: when the
    record lacks the left key the exception names the left key, whatever the
    right key is; when it has the left key and lacks the right one, the
    exception names the right key.  Nothing is computed before both are
    resolved. *)
Theorem binary_missing_key (keys : list Key) (e : BinaryExpression) :
  (left_key e ∉ names keys ->
   Hashed.evaluateExpression (Hashed.buildKeyMap keys) (Binary e)
   = Throw (KeyNotFoundException (left_key e)))
  /\ (left_key e ∈ names keys -> right_key e ∉ names keys ->
      Hashed.evaluateExpression (Hashed.buildKeyMap keys) (Binary e)
      = Throw (KeyNotFoundException (right_key e))).
Proof.
  simpl. unfold Hashed.getValueFromKeyMap. split.
  - intros Hl. rewrite (buildKeyMap_absent keys _ Hl). reflexivity.
  - intros Hl Hr.
    destruct (last_key_exists keys _ Hl) as (pre & k & post & -> & Hk & Hpost).
    rewrite <- Hk at 1. rewrite (buildKeyMap_last pre k post)
      by (rewrite Hk; exact Hpost).
    rewrite (buildKeyMap_absent _ _ Hr). reflexivity.
Qed.

(** The two benchmark conditions on the records the benchmarks start from. *)
Example BM_BinaryArithAndChain_initial :
  Hashed.parse (chain BM_BinaryArithAndChain_expr 4) (MakeSequentialIntKeys 5)
  = Ok true.
Proof. vm_compute. reflexivity. Qed.

Example BM_StringCompareChain_initial :
  Hashed.parse (chain BM_StringCompareChain_expr 8)
    [mkKey "name" (VString "alpha")]
  = Ok true.
Proof. vm_compute. reflexivity. Qed.
